(** * SchedViz: the trace converter and the scheduling collection facade

    A shallow embedding of two Go sources of the repository,

    - [traceparser/example/trace_to_proto_converter.go] (the command-line
      converter: flag validation and the overflowed-CPU oracle), and
    - the [sched] package's [Collection] (construction from an event set,
      CPU projection, and the query methods built on it),

    followed by the properties of them that the specification states. *)

From Stdlib Require Import ZArith Lia Ascii String.
From stdpp Require Import base option list strings gmap sorting.

Local Open Scope Z_scope.

(** ** Go values shared by both programs *)

Module Go.

(** Go's [error] values.  A formatted error keeps its format string and its
    arguments apart; [status.Errorf] adds a gRPC code. *)
Inductive code := InvalidArgument | Internal.

Inductive error :=
| Errorf (format : string) (args : list arg)
| StatusErrorf (c : code) (format : string) (args : list arg)
with arg :=
| ArgStr (s : string)
| ArgInt (n : Z)
| ArgErr (e : error).

(** A Go call returning [(value, error)]. *)
Inductive result (A : Type) :=
| Ok (a : A)
| Err (e : error).
Arguments Ok {A} a.
Arguments Err {A} e.

#[export] Instance result_ret : MRet result := fun _ a => Ok a.
#[export] Instance result_bind : MBind result := fun _ _ f m =>
  match m with
  | Ok a => f a
  | Err e => Err e
  end.

Definition is_Ok {A} (r : result A) : bool :=
  match r with Ok _ => true | Err _ => false end.

(** [int64] arithmetic wraps around. *)
Definition wrap64 (z : Z) : Z := (z + 2 ^ 63) mod 2 ^ 64 - 2 ^ 63.
Definition sub64 (a b : Z) : Z := wrap64 (a - b).
Definition int64 (z : Z) : Prop := - 2 ^ 63 <= z < 2 ^ 63.

(** [strings.Split(s, sep)] for a one-byte separator. *)
Fixpoint Split (s : string) (sep : ascii) : list string :=
  match s with
  | EmptyString => [EmptyString]
  | String c s' =>
      if Ascii.eqb c sep then EmptyString :: Split s' sep
      else match Split s' sep with
           | [] => [String c EmptyString]
           | w :: ws => String c w :: ws
           end
  end.

(** [unicode.IsSpace] on the bytes of one UTF-8 encoded rune.  White space
    is tab, line feed, vertical tab, form feed, carriage return and space,
    U+0085 and U+00A0 (bytes C2 85 and C2 A0), U+1680 (E1 9A 80), U+2000 to
    U+200A (E2 80 80 to E2 80 8A), U+2028, U+2029 and U+202F (E2 80 A8,
    E2 80 A9, E2 80 AF), U+205F (E2 81 9F) and U+3000 (E3 80 80). *)
Definition isSpaceByte (b : N) : bool :=
  (((9 <=? b) && (b <=? 13)) || (b =? 32))%N.

Definition isSpace (rune : list ascii) : bool :=
  match N_of_ascii <$> rune with
  | [b] => isSpaceByte b
  | [a; b] => ((a =? 194) && ((b =? 133) || (b =? 160)))%N
  | [a; b; c] =>
      (((a =? 225) && (b =? 154) && (c =? 128))
       || ((a =? 226) && (b =? 128)
           && (((128 <=? c) && (c <=? 138)) || (c =? 168) || (c =? 169) || (c =? 175)))
       || ((a =? 226) && (b =? 129) && (c =? 159))
       || ((a =? 227) && (b =? 128) && (c =? 128)))%N
  | _ => false
  end.

(** The width in bytes of the white-space rune a string starts with, or ends
    with; 0 when its first, or last, rune is not white space.  A byte
    sequence that is not valid UTF-8 decodes to the replacement character,
    which is not white space, and no encoding of a white-space rune is the
    start or the end of another's: the first (last) rune is white space
    exactly when its encoding is the start (end) of the string. *)
Definition leadingSpace (bs : list ascii) : nat :=
  if isSpace (take 1 bs) then 1
  else if isSpace (take 2 bs) then 2
  else if isSpace (take 3 bs) then 3
  else 0.

Definition trailingSpace (bs : list ascii) : nat :=
  if isSpace (drop (length bs - 1) bs) then 1
  else if isSpace (drop (length bs - 2) bs) then 2
  else if isSpace (drop (length bs - 3) bs) then 3
  else 0.

(** [strings.TrimLeftFunc(s, unicode.IsSpace)] and
    [strings.TrimRightFunc(s, unicode.IsSpace)], rune by rune; [n] bounds
    the number of runes taken off. *)
Fixpoint trimLeft (n : nat) (bs : list ascii) : list ascii :=
  match n with
  | O => bs
  | S n' =>
      match leadingSpace bs with
      | O => bs
      | width => trimLeft n' (drop width bs)
      end
  end.

Fixpoint trimRight (n : nat) (bs : list ascii) : list ascii :=
  match n with
  | O => bs
  | S n' =>
      match trailingSpace bs with
      | O => bs
      | width => trimRight n' (take (length bs - width) bs)
      end
  end.

(** [strings.TrimSpace]: the string without its leading and trailing
    white-space runes. *)
Definition TrimSpace (s : string) : string :=
  let bs := list_ascii_of_string s in
  string_of_list_ascii (trimRight (length bs) (trimLeft (length bs) bs)).

(** [strings.HasSuffix]. *)
Definition HasSuffix (s suffix : string) : bool :=
  let n := String.length s in
  let m := String.length suffix in
  (m <=? n)%nat && String.eqb (substring (n - m) m s) suffix.

(** [sort.Slice(xs, func(i, j) bool { return xs[i] < xs[j] })] on integers:
    the slice is put in ascending order.  The sort is not stable, which
    cannot be observed on integers. *)
Definition sortInts (xs : list Z) : list Z := merge_sort Z.le xs.

End Go.
Import Go.

(** ** The converter: [trace_to_proto_converter.go] *)

Module Converter.

(** The command-line flags, with their defaults. *)
Record Flags := {
  formatFilePaths : string;
  traceFilesPath : string;
  outputPath : string;
  statsFilesPath : string;
  outputFormat : string;
  failOnUnknownEventFormat : bool
}.

(** The part of the file system the converter reads: [ioutil.ReadFile] and
    [os.Open] followed by a read see a file's content, [ioutil.ReadDir]
    lists a directory's entries sorted by name. *)
Record FileSystem := {
  ReadFile : string -> result string;
  ReadDir : string -> result (list string)
}.

(** [path.Clean], element by element: empty elements and [.] are dropped,
    [..] takes back the element before it, is kept at the start of a path
    that is not rooted, and is dropped at the root.  [stack] holds the
    elements kept so far, the last one first. *)
Definition cleanStep (rooted : bool) (stack : list string) (elem : string) : list string :=
  if String.eqb elem "" || String.eqb elem "." then stack
  else if String.eqb elem ".." then
    match stack with
    | top :: rest => if String.eqb top ".." then elem :: stack else rest
    | [] => if rooted then [] else [elem]
    end
  else elem :: stack.

Definition Clean (path : string) : string :=
  match path with
  | EmptyString => "."
  | String c _ =>
      let rooted := Ascii.eqb c "/" in
      let elems := rev (foldl (cleanStep rooted) [] (Split path "/")) in
      let out := (if rooted then "/" else "") +:+ String.concat "/" elems in
      if String.eqb out "" then "." else out
  end.

(** [path.Join] of a directory and an entry name: the elements that are not
    empty, joined by slashes, and the result cleaned. *)
Definition path_Join (dir name : string) : string :=
  match dir, name with
  | EmptyString, EmptyString => EmptyString
  | EmptyString, _ => Clean name
  | _, _ => Clean (dir +:+ "/" +:+ name)
  end.

(** How a run of [main] leaves a phase: it goes on, [log.Exit] ends the
    process with status 1, or a run-time panic ends it with status 2. *)
Inductive run (A : Type) :=
| Done (a : A)
| LogExit (format : string) (args : list arg)
| Panic (msg : string).
Arguments Done {A} a.
Arguments LogExit {A} format args.
Arguments Panic {A} msg.

Definition exitStatus {A} (r : run A) : option Z :=
  match r with
  | Done _ => None
  | LogExit _ _ => Some 1
  | Panic _ => Some 2
  end.

(** [filterSlice]. *)
Fixpoint filterSlice (slice : list string) (pred : string -> bool) : list string :=
  match slice with
  | [] => []
  | s :: rest => if pred s then s :: filterSlice rest pred else filterSlice rest pred
  end.

(** Lines 47-53: split the flag on commas, trim each path, drop the empty
    ones. *)
Definition filteredFormatFilePaths (fl : Flags) : list string :=
  let formatFilePathsSlice := map TrimSpace (Split (formatFilePaths fl) ",") in
  filterSlice formatFilePathsSlice (fun s => negb (String.eqb s "")).

(** Lines 65-78: read every format file; the one whose path ends in
    [header_page] is the header, the others fill [formatFiles] from slot 0
    on.  Writing past the end of [formatFiles] panics. *)
Fixpoint readFormatFiles (fs : FileSystem) (paths : list string)
    (i : nat) (formatFiles : list string) (headerContent : string)
    : run (list string * string) :=
  match paths with
  | [] => Done (formatFiles, headerContent)
  | formatFilePath :: rest =>
      match ReadFile fs formatFilePath with
      | Err err => LogExit "Failed to read format file: %s" [ArgErr err]
      | Ok buf =>
          if HasSuffix formatFilePath "header_page" then
            readFormatFiles fs rest i formatFiles buf
          else if (i <? length formatFiles)%nat then
            readFormatFiles fs rest (S i) (<[i:=buf]> formatFiles) headerContent
          else Panic "runtime error: index out of range"
      end
  end.

(** Lines 46-82 of [main]: flag validation and the reading of the format
    files.  [Done (headerContent, formatFiles)] is the call
    [traceparser.New(headerContent, formatFiles)]. *)
Definition main_formats (fl : Flags) (fs : FileSystem) : run (string * list string) :=
  let paths := filteredFormatFilePaths fl in
  if (length paths <? 2)%nat then
    LogExit "format_files is required. Must pass the path to at least one format file and the header_page format file." []
  else if String.eqb (outputPath fl) "" then
    LogExit "output_path is required." []
  else
    match readFormatFiles fs paths 0 (replicate (length paths - 1) EmptyString) EmptyString with
    | Done (formatFiles, headerContent) =>
        if String.eqb headerContent "" then
          LogExit "Must pass a path to the header_page format file using the format_files argument." []
        else Done (headerContent, formatFiles)
    | LogExit f a => LogExit f a
    | Panic m => Panic m
    end.

(** [ioutil.ReadDir]: no directory has the empty path. *)
Definition ioutil_ReadDir (fs : FileSystem) (dirname : string) : result (list string) :=
  if String.eqb dirname "" then
    Err (Errorf "open %s: no such file or directory" [ArgStr dirname])
  else ReadDir fs dirname.

Section Parser.
(** The error, if any, of [traceparser.New] on a header and event
    formats. *)
Variable traceparser_New : string -> list string -> option error.

(** Lines 46-93 of [main]: after the format files, the parser is built and
    the trace directory is listed. *)
Definition main_traceFiles (fl : Flags) (fs : FileSystem) : run (list string) :=
  match main_formats fl fs with
  | Done (headerContent, formatFiles) =>
      match traceparser_New headerContent formatFiles with
      | Some err => LogExit "Failed to parse formats: %s" [ArgErr err]
      | None =>
          match ioutil_ReadDir fs (traceFilesPath fl) with
          | Err err => LogExit "Failed to get list of trace files: %s" [ArgErr err]
          | Ok traceFiles => Done traceFiles
          end
      end
  | LogExit f a => LogExit f a
  | Panic m => Panic m
  end.
End Parser.

(** Lines 95-101: the stats directory is listed only when the flag is
    set. *)
Definition main_statsFiles (fl : Flags) (fs : FileSystem) : run (list string) :=
  if String.eqb (statsFilesPath fl) "" then Done []
  else match ReadDir fs (statsFilesPath fl) with
       | Err err => LogExit "Failed to get list of stats files: %s" [ArgErr err]
       | Ok names => Done names
       end.

Section Overflow.
(** [traceparser.CPUOverflowed], which reads one stats file and returns
    [(overflowed, err)]. *)
Variable CPUOverflowed : string -> bool * option error.

(** Lines 106-115: each stats entry is opened under the trace directory
    and handed to [CPUOverflowed]; the CPU is recorded when the call
    returns an error together with [overflowed]. *)
Fixpoint overflowLoop (fl : Flags) (fs : FileSystem) (i : Z)
    (statsFiles : list string) (overflowedCPUs : gset Z) : run (gset Z) :=
  match statsFiles with
  | [] => Done overflowedCPUs
  | statsFilePath :: rest =>
      match ReadFile fs (path_Join (traceFilesPath fl) statsFilePath) with
      | Err err => LogExit "Failed to open trace file: %s" [ArgErr err]
      | Ok statsFile =>
          let '(overflowed, err) := CPUOverflowed statsFile in
          if bool_decide (err <> None) && overflowed then
            overflowLoop fl fs (i + 1) rest ({[ i ]} ∪ overflowedCPUs)
          else
            overflowLoop fl fs (i + 1) rest overflowedCPUs
      end
  end.

(** Lines 95-116 of [main]: the set handed to [SetOverflowedCPUs]. *)
Definition main_overflowedCPUs (fl : Flags) (fs : FileSystem) : run (gset Z) :=
  match main_statsFiles fl fs with
  | Done statsFiles => overflowLoop fl fs 0 statsFiles ∅
  | LogExit f a => LogExit f a
  | Panic m => Panic m
  end.
End Overflow.

End Converter.

(** ** The stats oracle of the [traceparser] package *)

Module Traceparser.

Definition isDigit (c : ascii) : bool :=
  let n := N_of_ascii c in ((48 <=? n) && (n <=? 57))%N.

Fixpoint parseDigits (s : string) (acc : Z) : option Z :=
  match s with
  | EmptyString => Some acc
  | String c s' =>
      if isDigit c then parseDigits s' (10 * acc + (Z.of_N (N_of_ascii c) - 48))
      else None
  end.

(** A decimal counter: one digit at least, digits only. *)
Definition parseCounter (s : string) : option Z :=
  match s with
  | EmptyString => None
  | _ => parseDigits s 0
  end.

(** A stats line [key: value], cut at its first colon. *)
Fixpoint statsField (line : string) : option (string * string) :=
  match line with
  | EmptyString => None
  | String c rest =>
      if Ascii.eqb c ":" then Some (EmptyString, rest)
      else match statsField rest with
           | Some (key, value) => Some (String c key, value)
           | None => None
           end
  end.

Definition isOverflowCounter (key : string) : bool :=
  String.eqb key "overrun" || String.eqb key "commit overrun"
  || String.eqb key "dropped events".

Fixpoint overflowedLines (lines : list string) : bool * option error :=
  match lines with
  | [] => (false, None)
  | line :: rest =>
      match statsField line with
      | Some (key, value) =>
          if isOverflowCounter (TrimSpace key) then
            match parseCounter (TrimSpace value) with
            | None => (false, Some (Errorf "malformed stats counter: %s" [ArgStr line]))
            | Some n => if n =? 0 then overflowedLines rest else (true, None)
            end
          else overflowedLines rest
      | None => overflowedLines rest
      end
  end.

(** Modelled from the spec: [traceparser.CPUOverflowed], of which the
    sources at hand hold the test [TestReadStats] only.  The stats file is
    read as text, line by line; the CPU overflowed when one of the counters
    [overrun], [commit overrun] and [dropped events] is not zero; a counter
    that is not a number is an error. *)
Definition CPUOverflowed (stats : string) : bool * option error :=
  overflowedLines (Split stats "010").

(** The stats file written by the test helper [createStatsString]. *)
Definition unlines (lines : list string) : string :=
  String.concat (String "010" EmptyString) lines.

Definition createStatsString (overrun commitOverrun droppedEvents : string) : string :=
  unlines [ "entries: 1945";
            "overrun: " +:+ overrun;
            "commit overrun: " +:+ commitOverrun;
            "bytes: 128768";
            "oldest event ts: 2698497.198903";
            "now ts: 2698499.259470";
            "dropped events: " +:+ droppedEvents;
            "read events: 2404" ]%string.

End Traceparser.

(** ** The scheduling collection: package [sched] *)

Module Sched.

(** *** Data *)

(** [trace.Timestamp], [CPUID], [PID] and [stringID] are integers. *)
Inductive threadState := UnknownState | RunningState | WaitingState | SleepingState.

#[export] Instance threadState_eq_dec : EqDecision threadState.
Proof. solve_decision. Defined.

Inductive dropPolicy := DropSelf | DropPrior | InsertSynthetic.

(** [trace.Event]. *)
Record Event := mkEvent {
  ev_Index : Z;
  ev_Name : string;
  ev_CPU : Z;
  ev_Timestamp : Z;
  ev_Clipped : bool;
  ev_TextProperties : gmap string string;
  ev_NumberProperties : gmap string Z
}.

Definition ev_setTimestamp (t : Z) (ev : Event) : Event :=
  mkEvent (ev_Index ev) (ev_Name ev) (ev_CPU ev) t (ev_Clipped ev)
    (ev_TextProperties ev) (ev_NumberProperties ev).

(** [threadTransition]: the constraints one event puts on one PID. *)
Record threadTransition := mkTransition {
  tt_EventID : Z;
  tt_Timestamp : Z;
  tt_PID : Z;
  tt_PrevCommand : Z;
  tt_NextCommand : Z;
  tt_PrevPriority : Z;
  tt_NextPriority : Z;
  tt_PrevCPU : Z;
  tt_NextCPU : Z;
  tt_PrevState : threadState;
  tt_NextState : threadState;
  tt_dropPolicy : dropPolicy
}.

Definition tt_setTimestamp (t : Z) (tr : threadTransition) : threadTransition :=
  mkTransition (tt_EventID tr) t (tt_PID tr) (tt_PrevCommand tr) (tt_NextCommand tr)
    (tt_PrevPriority tr) (tt_NextPriority tr) (tt_PrevCPU tr) (tt_NextCPU tr)
    (tt_PrevState tr) (tt_NextState tr) (tt_dropPolicy tr).

(** [threadSpan]. *)
Record threadSpan := mkSpan {
  span_pid : Z;
  span_cpu : Z;
  span_state : threadState;
  span_command : Z;
  span_priority : Z;
  span_startTimestamp : Z;
  span_endTimestamp : Z
}.

(** Modelled from the spec: the string table behind the string bank, which
    is not among the sources at hand.  It maps each string ID in use to its
    string; [stringByID] returns the stored string or fails. *)
Definition stringTable := gmap Z string.

Definition newStringBank : stringTable := ∅.

Definition stringByID (t : stringTable) (id : Z) : result string :=
  match t !! id with
  | Some s => Ok s
  | None => Err (Errorf "unknown string ID %d" [ArgInt id])
  end.

(** Modelled from the spec: [UnknownCommand], whose declaration is not among
    the sources at hand; string ID 0 is reserved for it. *)
Definition UnknownCommand : Z := 0.

(** An event loader, a function of a [trace.Event] and a
    [ThreadTransitionSetBuilder] that may fail: the transitions it builds for
    the event, interning commands in the string bank on the way. *)
Definition loaderFunc : Type :=
  Event -> stringTable -> result (list threadTransition * stringTable).

(** [collectionOptions]; a [nil] loader map is [None]. *)
Record collectionOptions := mkOptions {
  loaders : option (gmap string loaderFunc);
  normalizeTimestamps : bool
}.

(** An [Option] updates the options in place or fails. *)
Definition Option : Type := collectionOptions -> result collectionOptions.

(** Modelled from the spec: the two options the specification names
    ([normalize_timestamps] and [event_loader_map]), whose constructors are
    not among the sources at hand. *)
Definition NormalizeTimestamps (normalize : bool) : Option :=
  fun o => Ok (mkOptions (loaders o) normalize).
Definition UsingEventLoaders (eventLoaders : gmap string loaderFunc) : Option :=
  fun o => Ok (mkOptions (Some eventLoaders) (normalizeTimestamps o)).

(** [eventpb.EventSet], with its events already in [trace.Event] form. *)
Record EventSet := mkEventSet {
  es_Event : list Event;
  es_DefaultLoadersType : Z
}.

(** Modelled from the spec: [trace.Collection], which is not among the
    sources at hand.  It holds the events of the event set in index order;
    [EventByIndex] hands out a fresh copy of the event at an index and fails
    out of range. *)
Record trace_Collection := mkTrace { tc_events : list Event }.

Definition EventCount (coll : trace_Collection) : Z := Z.of_nat (length (tc_events coll)).

Definition EventByIndex (coll : trace_Collection) (index : Z) : result Event :=
  if index <? 0 then Err (Errorf "event index %d out of range" [ArgInt index])
  else match tc_events coll !! Z.to_nat index with
       | Some ev => Ok ev
       | None => Err (Errorf "event index %d out of range" [ArgInt index])
       end.

(** [Collection].  The interval trees of the sleeping and waiting indexes
    are kept as the spans stored in them. *)
Record Collection := mkCollection {
  c_stringTable : stringTable;
  normalizationOffset : Z;
  runningSpansByCPU : gmap Z (list threadSpan);
  sleepingSpansByCPU : gmap Z (list threadSpan);
  waitingSpansByCPU : gmap Z (list threadSpan);
  spansByPID : gmap Z (list threadSpan);
  options : collectionOptions;
  cpus : gset Z;
  pids : gset Z;
  startTimestamp : Z;
  endTimestamp : Z;
  TraceCollection : trace_Collection;
  ThreadTransitions : list threadTransition;
  droppedEventCountsByID : gmap Z Z;
  syntheticTransitionCount : Z
}.

(** Field assignments. *)
Definition set_stringTable (v : stringTable) (c : Collection) : Collection :=
  mkCollection v (normalizationOffset c) (runningSpansByCPU c) (sleepingSpansByCPU c)
    (waitingSpansByCPU c) (spansByPID c) (options c) (cpus c) (pids c) (startTimestamp c)
    (endTimestamp c) (TraceCollection c) (ThreadTransitions c) (droppedEventCountsByID c)
    (syntheticTransitionCount c).
Definition set_normalizationOffset (v : Z) (c : Collection) : Collection :=
  mkCollection (c_stringTable c) v (runningSpansByCPU c) (sleepingSpansByCPU c)
    (waitingSpansByCPU c) (spansByPID c) (options c) (cpus c) (pids c) (startTimestamp c)
    (endTimestamp c) (TraceCollection c) (ThreadTransitions c) (droppedEventCountsByID c)
    (syntheticTransitionCount c).
Definition set_cpuIndexes (r s w : gmap Z (list threadSpan)) (c : Collection) : Collection :=
  mkCollection (c_stringTable c) (normalizationOffset c) r s w (spansByPID c) (options c)
    (cpus c) (pids c) (startTimestamp c) (endTimestamp c) (TraceCollection c)
    (ThreadTransitions c) (droppedEventCountsByID c) (syntheticTransitionCount c).
Definition set_spans (spans : gmap Z (list threadSpan)) (dropped : gmap Z Z) (synthetic : Z)
    (c : Collection) : Collection :=
  mkCollection (c_stringTable c) (normalizationOffset c) (runningSpansByCPU c)
    (sleepingSpansByCPU c) (waitingSpansByCPU c) spans (options c) (cpus c) (pids c)
    (startTimestamp c) (endTimestamp c) (TraceCollection c) (ThreadTransitions c) dropped
    synthetic.
Definition set_options (v : collectionOptions) (c : Collection) : Collection :=
  mkCollection (c_stringTable c) (normalizationOffset c) (runningSpansByCPU c)
    (sleepingSpansByCPU c) (waitingSpansByCPU c) (spansByPID c) v (cpus c) (pids c)
    (startTimestamp c) (endTimestamp c) (TraceCollection c) (ThreadTransitions c)
    (droppedEventCountsByID c) (syntheticTransitionCount c).
Definition set_cpus (v : gset Z) (c : Collection) : Collection :=
  mkCollection (c_stringTable c) (normalizationOffset c) (runningSpansByCPU c)
    (sleepingSpansByCPU c) (waitingSpansByCPU c) (spansByPID c) (options c) v (pids c)
    (startTimestamp c) (endTimestamp c) (TraceCollection c) (ThreadTransitions c)
    (droppedEventCountsByID c) (syntheticTransitionCount c).
Definition set_pids (v : gset Z) (c : Collection) : Collection :=
  mkCollection (c_stringTable c) (normalizationOffset c) (runningSpansByCPU c)
    (sleepingSpansByCPU c) (waitingSpansByCPU c) (spansByPID c) (options c) (cpus c) v
    (startTimestamp c) (endTimestamp c) (TraceCollection c) (ThreadTransitions c)
    (droppedEventCountsByID c) (syntheticTransitionCount c).
Definition set_startTimestamp (v : Z) (c : Collection) : Collection :=
  mkCollection (c_stringTable c) (normalizationOffset c) (runningSpansByCPU c)
    (sleepingSpansByCPU c) (waitingSpansByCPU c) (spansByPID c) (options c) (cpus c)
    (pids c) v (endTimestamp c) (TraceCollection c) (ThreadTransitions c)
    (droppedEventCountsByID c) (syntheticTransitionCount c).
Definition set_endTimestamp (v : Z) (c : Collection) : Collection :=
  mkCollection (c_stringTable c) (normalizationOffset c) (runningSpansByCPU c)
    (sleepingSpansByCPU c) (waitingSpansByCPU c) (spansByPID c) (options c) (cpus c)
    (pids c) (startTimestamp c) v (TraceCollection c) (ThreadTransitions c)
    (droppedEventCountsByID c) (syntheticTransitionCount c).
Definition set_TraceCollection (v : trace_Collection) (c : Collection) : Collection :=
  mkCollection (c_stringTable c) (normalizationOffset c) (runningSpansByCPU c)
    (sleepingSpansByCPU c) (waitingSpansByCPU c) (spansByPID c) (options c) (cpus c)
    (pids c) (startTimestamp c) (endTimestamp c) v (ThreadTransitions c)
    (droppedEventCountsByID c) (syntheticTransitionCount c).
Definition set_ThreadTransitions (v : list threadTransition) (c : Collection) : Collection :=
  mkCollection (c_stringTable c) (normalizationOffset c) (runningSpansByCPU c)
    (sleepingSpansByCPU c) (waitingSpansByCPU c) (spansByPID c) (options c) (cpus c)
    (pids c) (startTimestamp c) (endTimestamp c) (TraceCollection c) v
    (droppedEventCountsByID c) (syntheticTransitionCount c).

(** Modelled from the spec: the filters of the query interface, which are
    not among the sources at hand.  Filters compose by intersection, and
    [buildFilter] starts from the collection's cached interval, CPUs and
    PIDs. *)
Inductive Filter :=
| TimeRange (startTS endTS : Z)
| StartTimestamp (startTS : Z)
| EndTimestamp (endTS : Z)
| CPUsFilter (cs : gset Z)
| PIDsFilter (ps : gset Z)
| EventNames (names : gset string).

Record filter := mkFilter {
  f_startTimestamp : Z;
  f_endTimestamp : Z;
  f_cpus : gset Z;
  f_pids : gset Z;
  f_eventNames : option (gset string)
}.

Definition applyFilter (f : filter) (fl : Filter) : filter :=
  match fl with
  | TimeRange s e =>
      mkFilter (Z.max s (f_startTimestamp f)) (Z.min e (f_endTimestamp f))
        (f_cpus f) (f_pids f) (f_eventNames f)
  | StartTimestamp s =>
      mkFilter (Z.max s (f_startTimestamp f)) (f_endTimestamp f)
        (f_cpus f) (f_pids f) (f_eventNames f)
  | EndTimestamp e =>
      mkFilter (f_startTimestamp f) (Z.min e (f_endTimestamp f))
        (f_cpus f) (f_pids f) (f_eventNames f)
  | CPUsFilter cs =>
      mkFilter (f_startTimestamp f) (f_endTimestamp f) (f_cpus f ∩ cs) (f_pids f)
        (f_eventNames f)
  | PIDsFilter ps =>
      mkFilter (f_startTimestamp f) (f_endTimestamp f) (f_cpus f) (f_pids f ∩ ps)
        (f_eventNames f)
  | EventNames names =>
      mkFilter (f_startTimestamp f) (f_endTimestamp f) (f_cpus f) (f_pids f)
        (Some (match f_eventNames f with
               | Some ns => ns ∩ names
               | None => names
               end))
  end.

Definition buildFilter (c : Collection) (filters : list Filter) : filter :=
  foldl applyFilter
    (mkFilter (startTimestamp c) (endTimestamp c) (cpus c) (pids c) None) filters.

(** Modelled from the spec: [cpuSpanSet], which is not among the sources at
    hand.  Each span is bucketed by CPU: running spans in a vector kept
    sorted by start, sleeping and waiting spans in an interval tree each. *)
Record cpuSpanSet := mkCPUSpanSet {
  cib_running : gmap Z (list threadSpan);
  cib_sleeping : gmap Z (list threadSpan);
  cib_waiting : gmap Z (list threadSpan)
}.

Definition newCPUSpanSet : cpuSpanSet := mkCPUSpanSet ∅ ∅ ∅.

Definition bucket (span : threadSpan) (m : gmap Z (list threadSpan))
    : gmap Z (list threadSpan) :=
  <[span_cpu span := default [] (m !! span_cpu span) ++ [span]]> m.

Definition addSpan (cib : cpuSpanSet) (span : threadSpan) : cpuSpanSet :=
  match span_state span with
  | RunningState =>
      mkCPUSpanSet (bucket span (cib_running cib)) (cib_sleeping cib) (cib_waiting cib)
  | SleepingState =>
      mkCPUSpanSet (cib_running cib) (bucket span (cib_sleeping cib)) (cib_waiting cib)
  | WaitingState =>
      mkCPUSpanSet (cib_running cib) (cib_sleeping cib) (bucket span (cib_waiting cib))
  | UnknownState => cib
  end.

Definition startsBefore (s1 s2 : threadSpan) : Prop :=
  span_startTimestamp s1 <= span_startTimestamp s2.

#[export] Instance startsBefore_dec : RelDecision startsBefore.
Proof. intros s1 s2. unfold startsBefore. apply _. Defined.

Definition sortByStart (spans : list threadSpan) : list threadSpan :=
  merge_sort startsBefore spans.

(** *** The parts of the package outside the sources at hand

    The inference engine ([threadSpanSet]), the default loader tables, the
    checks made by [newEventLoader], [trace.NewCollection] and [cpuTrees],
    the per-CPU event index, and the sentinel values are declared in files
    that are not at hand.  The collection is written against this
    interface, and the properties below hold for each implementation of
    it; those that depend on which events a query selects are stated for
    the event index modelled further down. *)
Class Externals := {
  (** The sentinel for a value not known yet. *)
  Unknown : Z;
  UnknownCPU : Z;
  UnknownPID : Z;
  (** The inference engine.  [threadSpans] finalizes the set, which may drop
      or synthesize further transitions. *)
  threadSpanSet : Type;
  newThreadSpanSet : Z -> collectionOptions -> threadSpanSet;
  addTransition : threadSpanSet -> threadTransition -> result threadSpanSet;
  threadSpans : threadSpanSet -> Z -> result (gmap Z (list threadSpan) * threadSpanSet);
  ts_droppedEventCountsByID : threadSpanSet -> gmap Z Z;
  ts_syntheticTransitionCount : threadSpanSet -> Z;
  (** [EventLoader(elt)]: the loaders of a default loaders type. *)
  EventLoader : Z -> result (gmap string loaderFunc);
  (** The error, if any, of [newEventLoader], [trace.NewCollection] and
      [cpuTrees]. *)
  newEventLoader_err : gmap string loaderFunc -> option error;
  trace_NewCollection_err : EventSet -> option error;
  cpuTrees_err : cpuSpanSet -> option error;
  (** The per-CPU event index. *)
  PerCPUCollection : Type;
  NewPerCPUCollection :
    Collection -> (Event -> result (list Z)) -> result PerCPUCollection;
  EventIndices : PerCPUCollection -> list Filter -> list Z
}.

Section Collection.
Context `{Externals}.

(** The offset is initialised with [Unknown] and tested against
    [UnknownTimestamp]: both name the one sentinel. *)
Definition UnknownTimestamp : Z := Unknown.

(** [trace.NewCollection]. *)
Definition trace_NewCollection (es : EventSet) : result trace_Collection :=
  match trace_NewCollection_err es with
  | Some err => Err err
  | None => Ok (mkTrace (es_Event es))
  end.

(** Modelled from the spec: [eventLoader.threadTransitions], which is not
    among the sources at hand.  The loader registered for the event's name
    builds the transitions; an event with no loader makes none. *)
Definition threadTransitions (eventLoaders : gmap string loaderFunc)
    (bank : stringTable) (ev : Event) : result (list threadTransition * stringTable) :=
  match eventLoaders !! ev_Name ev with
  | Some loader => loader ev bank
  | None => Ok ([], bank)
  end.

(** [cpuTrees]. *)
Definition cpuTrees (cib : cpuSpanSet)
    : result (gmap Z (list threadSpan) * gmap Z (list threadSpan) * gmap Z (list threadSpan)) :=
  match cpuTrees_err cib with
  | Some err => Err err
  | None => Ok (sortByStart <$> cib_running cib, cib_sleeping cib, cib_waiting cib)
  end.

(** [NormalizationOffset]. *)
Definition NormalizationOffset (c : Collection) : Z := normalizationOffset c.

(** The inner loop of [buildSpansByPID] (lines 289-294), after the
    timestamps have been shifted. *)
Fixpoint addTransitions (ts : threadSpanSet) (tts : list threadTransition)
    : result threadSpanSet :=
  match tts with
  | [] => Ok ts
  | tr :: rest => ts' ← addTransition ts tr; addTransitions ts' rest
  end.

Definition normalizeTransition (offset : Z) (tr : threadTransition) : threadTransition :=
  tt_setTimestamp (sub64 (tt_Timestamp tr) offset) tr.

(** Lines 273-281: the first event that makes transitions fixes the
    normalization offset and the start of the collection. *)
Definition startNormalization (ev : Event) (c : Collection) : Collection :=
  if bool_decide (normalizationOffset c = UnknownTimestamp) then
    let c :=
      set_normalizationOffset
        (if normalizeTimestamps (options c) then ev_Timestamp ev else 0) c in
    set_startTimestamp (sub64 (ev_Timestamp ev) (NormalizationOffset c)) c
  else c.

(** Lines 286-290: the end of the collection follows the event, and the
    event's transitions, shifted by the offset, replace the recorded
    ones. *)
Definition recordTransitions (ev : Event) (tts : list threadTransition) (c : Collection)
    : Collection :=
  let c := set_endTimestamp (sub64 (ev_Timestamp ev) (NormalizationOffset c)) c in
  set_ThreadTransitions (normalizeTransition (normalizationOffset c) <$> tts) c.

(** One turn of the event loop of [buildSpansByPID] (lines 260-294), on
    the collection and the span set ([None] while it is [nil]). *)
Definition eventStep (eventLoaders : gmap string loaderFunc)
    (st : Collection * option threadSpanSet) (ev : Event)
    : result (Collection * option threadSpanSet) :=
  let '(c, ts) := st in
  if ev_Clipped ev then Ok (c, ts)
  else
    '(tts, bank) ← threadTransitions eventLoaders (c_stringTable c) ev;
    let c := set_stringTable bank c in
    if bool_decide (length tts = 0%nat) then Ok (c, ts)
    else
      let c := startNormalization ev c in
      let ts :=
        match ts with
        | None => newThreadSpanSet (startTimestamp c) (options c)
        | Some ts => ts
        end in
      let c := recordTransitions ev tts c in
      ts ← addTransitions ts (ThreadTransitions c);
      Ok (c, Some ts).

(** The event loop (lines 255-295), over the event indices. *)
Fixpoint eventLoop (eventLoaders : gmap string loaderFunc) (coll : trace_Collection)
    (indices : list Z) (st : Collection * option threadSpanSet)
    : result (Collection * option threadSpanSet) :=
  match indices with
  | [] => Ok st
  | eventIndex :: rest =>
      ev ← EventByIndex coll eventIndex;
      st' ← eventStep eventLoaders st ev;
      eventLoop eventLoaders coll rest st'
  end.

(** [buildSpansByPID]. *)
Definition buildSpansByPID (c : Collection) (es : EventSet)
    (eventLoaders : gmap string loaderFunc) : result Collection :=
  let c := set_stringTable newStringBank c in
  match newEventLoader_err eventLoaders with
  | Some err => Err (Errorf "failed to use eventLoaders: %s" [ArgErr err])
  | None =>
      coll ← trace_NewCollection es;
      let c := set_TraceCollection coll c in
      '(c, ts) ← eventLoop eventLoaders coll (seqZ 0 (EventCount coll)) (c, None);
      match ts with
      | None => Err (StatusErrorf InvalidArgument "no usable events in collection" [])
      | Some ts =>
          '(spans, ts) ← threadSpans ts (endTimestamp c);
          Ok (set_spans spans (ts_droppedEventCountsByID ts)
                (ts_syntheticTransitionCount ts) c)
      end
  end.

(** The spans visited by the two nested loops of [buildSpansByCPU]; the
    order in which a Go map is ranged over is not specified. *)
Definition allSpans (m : gmap Z (list threadSpan)) : list threadSpan :=
  concat (snd <$> map_to_list m).

Definition unknownSpan (span : threadSpan) : bool :=
  bool_decide (span_cpu span = UnknownCPU) || bool_decide (span_pid span = UnknownPID).

(** The body of the loops of [buildSpansByCPU] (lines 313-318). *)
Definition projectSpan (st : Collection * cpuSpanSet) (span : threadSpan)
    : Collection * cpuSpanSet :=
  let '(c, cib) := st in
  if unknownSpan span then (c, cib)
  else
    let c := set_pids ({[ span_pid span ]} ∪ pids c) c in
    let c := set_cpus ({[ span_cpu span ]} ∪ cpus c) c in
    (c, addSpan cib span).

(** [buildSpansByCPU]. *)
Definition buildSpansByCPU (c : Collection) : result Collection :=
  let '(c, cib) := foldl projectSpan (c, newCPUSpanSet) (allSpans (spansByPID c)) in
  '(r, s, w) ← cpuTrees cib;
  Ok (set_cpuIndexes r s w c).

(** The collection [NewCollection] starts from; the fields it does not
    name hold Go's zero values (an empty trace stands for the [nil]
    trace collection). *)
Definition emptyCollection : Collection :=
  mkCollection ∅ Unknown ∅ ∅ ∅ ∅ (mkOptions None false) ∅ ∅ 0 0 (mkTrace []) [] ∅ 0.

Fixpoint applyOptions (opts : list Option) (o : collectionOptions)
    : result collectionOptions :=
  match opts with
  | [] => Ok o
  | option :: rest => o' ← option o; applyOptions rest o'
  end.

(** Lines 220-229: without loaders in the options, the event set's default
    loaders type decides. *)
Definition resolveLoaders (es : EventSet) (o : collectionOptions)
    : result (gmap string loaderFunc) :=
  match loaders o with
  | Some el => Ok el
  | None => EventLoader (es_DefaultLoadersType es)
  end.

(** [NewCollection]. *)
Definition NewCollection (es : EventSet) (opts : list Option) : result Collection :=
  let c := emptyCollection in
  o ← applyOptions opts (options c);
  el ← resolveLoaders es o;
  let c := set_options (mkOptions (Some el) (normalizeTimestamps o)) c in
  c ← buildSpansByPID c es el;
  buildSpansByCPU c.

(** [LookupCommand]. *)
Definition LookupCommand (c : Collection) (command : Z) : result string :=
  if bool_decide (command = UnknownCommand) then Ok "<unknown>"%string
  else match stringByID (c_stringTable c) command with
       | Err _ =>
           Err (StatusErrorf Internal "failed to find command for id %d" [ArgInt command])
       | Ok commStr => Ok commStr
       end.

(** [cpuLookupFunc]; a [nil] slice is the empty list. *)
Definition cpuLookupFunc (ev : Event) : result (list Z) :=
  if ev_Clipped ev then Ok []
  else if String.eqb (ev_Name ev) "sched_migrate_task" then
    match ev_NumberProperties ev !! "orig_cpu"%string with
    | None => Err (StatusErrorf Internal "sched_migrate_task lacks orig_cpu field" [])
    | Some prevCPU => Ok [ev_CPU ev; prevCPU]
    end
  else if String.eqb (ev_Name ev) "sched_wakeup"
          || String.eqb (ev_Name ev) "sched_wakeup_new" then
    match ev_NumberProperties ev !! "target_cpu"%string with
    | None => Err (StatusErrorf Internal "%s lacks target_cpu field" [ArgStr (ev_Name ev)])
    | Some targetCPU => Ok [targetCPU]
    end
  else Ok [ev_CPU ev].

(** The loop of [GetRawEvents] (lines 370-378). *)
Fixpoint rawEvents (c : Collection) (indices : list Z) : result (list Event) :=
  match indices with
  | [] => Ok []
  | eventIndex :: rest =>
      ev ← EventByIndex (TraceCollection c) eventIndex;
      let ev := ev_setTimestamp (sub64 (ev_Timestamp ev) (normalizationOffset c)) ev in
      events ← rawEvents c rest;
      Ok (ev :: events)
  end.

(** [GetRawEvents]. *)
Definition GetRawEvents (c : Collection) (filters : list Filter) : result (list Event) :=
  perCPUColl ← NewPerCPUCollection c cpuLookupFunc;
  rawEvents c (EventIndices perCPUColl filters).

(** [Interval] and [CPUs]. *)
Definition Interval (c : Collection) (filters : list Filter) : Z * Z :=
  let f := buildFilter c filters in (f_startTimestamp f, f_endTimestamp f).

Definition CPUs (c : Collection) (filters : list Filter) : gset Z :=
  f_cpus (buildFilter c filters).

(** [DroppedEventIDs]: the keys of the map, ranged over in some order,
    then sorted. *)
Definition DroppedEventIDs (c : Collection) : list Z :=
  sortInts (fst <$> map_to_list (droppedEventCountsByID c)).

(** [SyntheticTransitionCount]. *)
Definition SyntheticTransitionCount (c : Collection) : Z := syntheticTransitionCount c.

(** [ExpandCPUs]. *)
Definition ExpandCPUs (c : Collection) (cpus : list Z) : list Z :=
  if bool_decide (length cpus = 0%nat) then sortInts (elements (CPUs c []))
  else cpus.

(** Modelled from the spec: what the inference engine, which is not among
    the sources at hand, records as dropped.  On a contradiction the
    policy [DROP_SELF] discards the offending transition and counts it
    under the transition's event index; nothing else enters the map of
    dropped events.  [fed ts ids] says that the span set [ts] was made by
    [newThreadSpanSet], [addTransition] and [threadSpans] from transitions
    whose event indices are [ids]. *)
Inductive fed : threadSpanSet -> gset Z -> Prop :=
| fed_new (start : Z) (o : collectionOptions) :
    fed (newThreadSpanSet start o) ∅
| fed_add (ts : threadSpanSet) (ids : gset Z) (tr : threadTransition)
    (ts' : threadSpanSet) :
    fed ts ids -> addTransition ts tr = Ok ts' -> fed ts' ({[ tt_EventID tr ]} ∪ ids)
| fed_finalized (ts : threadSpanSet) (ids : gset Z) (endTS : Z)
    (spans : gmap Z (list threadSpan)) (ts' : threadSpanSet) :
    fed ts ids -> threadSpans ts endTS = Ok (spans, ts') -> fed ts' ids.

Definition dropsFedEvents : Prop :=
  forall (ts : threadSpanSet) (ids : gset Z),
    fed ts ids ->
    forall eventID : Z,
      is_Some (ts_droppedEventCountsByID ts !! eventID) -> eventID ∈ ids.

(** Modelled from the spec: a loader gives each transition it builds the
    index of the event it builds it for (the transition's
    [event_index]). *)
Definition stampsEventIndex (eventLoaders : gmap string loaderFunc) : Prop :=
  forall (ev : Event) (bank : stringTable) (tts : list threadTransition)
         (bank' : stringTable),
    threadTransitions eventLoaders bank ev = Ok (tts, bank') ->
    Forall (fun tr => tt_EventID tr = ev_Index ev) tts.
End Collection.

(** Modelled from the spec: the per-CPU event index behind [raw_events],
    which is not among the sources at hand.  Each event of the trace
    collection is filed, in index order, under the CPUs the lookup function
    returns for it.  A query selects the events that are filed under a
    filtered-in CPU, whose normalized timestamp lies in the filtered-in
    interval, and whose name is among the filtered-in event names if there
    are any: the filters compose by intersection, starting from the
    collection's cached interval and CPUs. *)
Record perCPUCollection := mkPerCPU {
  pc_collection : Collection;
  pc_cpus : list (Event * list Z)
}.

Fixpoint lookupAll (lookup : Event -> result (list Z)) (evs : list Event)
    : result (list (Event * list Z)) :=
  match evs with
  | [] => Ok []
  | ev :: rest =>
      cs ← lookup ev;
      more ← lookupAll lookup rest;
      Ok ((ev, cs) :: more)
  end.

Definition newPerCPUCollection (c : Collection) (lookup : Event -> result (list Z))
    : result perCPUCollection :=
  entries ← lookupAll lookup (tc_events (TraceCollection c));
  Ok (mkPerCPU c entries).

Definition filteredIn (c : Collection) (f : filter) (entry : Event * list Z) : bool :=
  let timestamp := sub64 (ev_Timestamp entry.1) (normalizationOffset c) in
  bool_decide (f_startTimestamp f <= timestamp <= f_endTimestamp f)
  && bool_decide (Exists (fun cpu => cpu ∈ f_cpus f) entry.2)
  && match f_eventNames f with
     | Some names => bool_decide (ev_Name entry.1 ∈ names)
     | None => true
     end.

Fixpoint indicesFrom (c : Collection) (f : filter) (i : Z)
    (entries : list (Event * list Z)) : list Z :=
  match entries with
  | [] => []
  | entry :: rest =>
      if filteredIn c f entry then i :: indicesFrom c f (i + 1) rest
      else indicesFrom c f (i + 1) rest
  end.

Definition eventIndices (pc : perCPUCollection) (filters : list Filter) : list Z :=
  indicesFrom (pc_collection pc) (buildFilter (pc_collection pc) filters) 0 (pc_cpus pc).

(** An implementation of the interface with this event index in place of
    its own. *)
Definition withEventIndex (X : Externals) : Externals := {|
  Unknown := @Unknown X;
  UnknownCPU := @UnknownCPU X;
  UnknownPID := @UnknownPID X;
  threadSpanSet := @threadSpanSet X;
  newThreadSpanSet := @newThreadSpanSet X;
  addTransition := @addTransition X;
  threadSpans := @threadSpans X;
  ts_droppedEventCountsByID := @ts_droppedEventCountsByID X;
  ts_syntheticTransitionCount := @ts_syntheticTransitionCount X;
  EventLoader := @EventLoader X;
  newEventLoader_err := @newEventLoader_err X;
  trace_NewCollection_err := @trace_NewCollection_err X;
  cpuTrees_err := @cpuTrees_err X;
  PerCPUCollection := perCPUCollection;
  NewPerCPUCollection := newPerCPUCollection;
  EventIndices := eventIndices
|}.

(** *** A plain implementation of the interface

    Used to run the collection on concrete event sets.  Its engine takes a
    transition at its word unless the transition contradicts the CPU its
    thread is known to be on: such a transition is dropped and counted under
    its event (the policy [DROP_SELF] of the specification).  Nothing is
    synthesized.  Its loaders are the ones the specification gives for
    [sched_switch] and the two wake-up events, and its event index is the
    one above. *)
Module Plain.

Definition unknown : Z := -1.

Record spanSet := mkSpanSet {
  ps_start : Z;
  ps_transitions : list threadTransition
}.

(** The last span of a PID is open: its end is fixed by the PID's next
    transition, or at finalization. *)
Definition closeLast (endTS : Z) (spans : list threadSpan) : list threadSpan :=
  match reverse spans with
  | [] => []
  | s :: before =>
      reverse before ++
      [mkSpan (span_pid s) (span_cpu s) (span_state s) (span_command s)
         (span_priority s) (span_startTimestamp s) endTS]
  end.

Definition spanAfter (tr : threadTransition) : threadSpan :=
  mkSpan (tt_PID tr) (tt_NextCPU tr) (tt_NextState tr) (tt_NextCommand tr)
    (tt_NextPriority tr) (tt_Timestamp tr) (tt_Timestamp tr).

Definition spanBefore (start : Z) (tr : threadTransition) : list threadSpan :=
  if bool_decide (start < tt_Timestamp tr) then
    [mkSpan (tt_PID tr) (tt_PrevCPU tr) (tt_PrevState tr) (tt_PrevCommand tr)
       (tt_PrevPriority tr) start (tt_Timestamp tr)]
  else [].

(** A transition contradicts the open span of its thread when both name a
    CPU and the two differ. *)
Definition contradicts (spans : list threadSpan) (tr : threadTransition) : bool :=
  match last spans with
  | Some s =>
      negb (span_cpu s =? unknown) && negb (tt_PrevCPU tr =? unknown)
      && negb (span_cpu s =? tt_PrevCPU tr)
  | None => false
  end.

Definition step (start : Z) (st : gmap Z (list threadSpan) * gmap Z Z)
    (tr : threadTransition) : gmap Z (list threadSpan) * gmap Z Z :=
  let '(m, dropped) := st in
  match m !! tt_PID tr with
  | Some spans =>
      if contradicts spans tr then
        (m, <[tt_EventID tr := default 0 (dropped !! tt_EventID tr) + 1]> dropped)
      else (<[tt_PID tr := closeLast (tt_Timestamp tr) spans ++ [spanAfter tr]]> m, dropped)
  | None => (<[tt_PID tr := spanBefore start tr ++ [spanAfter tr]]> m, dropped)
  end.

Definition inferred (ts : spanSet) : gmap Z (list threadSpan) * gmap Z Z :=
  foldl (step (ps_start ts)) (∅, ∅) (ps_transitions ts).

Definition spansOf (ts : spanSet) (endTS : Z) : gmap Z (list threadSpan) :=
  closeLast endTS <$> (inferred ts).1.

Definition droppedOf (ts : spanSet) : gmap Z Z := (inferred ts).2.

Definition numberField (ev : Event) (field : string) : result Z :=
  match ev_NumberProperties ev !! field with
  | Some n => Ok n
  | None => Err (Errorf "%s lacks field %s" [ArgStr (ev_Name ev); ArgStr field])
  end.

Definition transition (ev : Event) (pid prevCPU nextCPU : Z) (prev next : threadState)
    : threadTransition :=
  mkTransition (ev_Index ev) (ev_Timestamp ev) pid UnknownCommand UnknownCommand
    unknown unknown prevCPU nextCPU prev next DropSelf.

(** Modelled from the spec: the loader of [sched_switch], two transitions:
    the previous thread leaves the CPU, waiting if its state was 0 and
    sleeping otherwise, and the next thread starts running on it. *)
Definition loadSchedSwitch : loaderFunc := fun ev bank =>
  prevPID ← numberField ev "prev_pid";
  prevState ← numberField ev "prev_state";
  nextPID ← numberField ev "next_pid";
  Ok ([ transition ev prevPID (ev_CPU ev) (ev_CPU ev) RunningState
          (if bool_decide (prevState = 0) then WaitingState else SleepingState);
        transition ev nextPID (ev_CPU ev) (ev_CPU ev) WaitingState RunningState ],
      bank).

(** Modelled from the spec: the loader of [sched_wakeup] and
    [sched_wakeup_new], one transition from sleeping to waiting on the
    target CPU. *)
Definition loadSchedWakeup : loaderFunc := fun ev bank =>
  pid ← numberField ev "pid";
  targetCPU ← numberField ev "target_cpu";
  Ok ([ transition ev pid unknown targetCPU SleepingState WaitingState ], bank).

Definition defaultLoaders : gmap string loaderFunc :=
  {[ "sched_switch"%string := loadSchedSwitch;
     "sched_wakeup"%string := loadSchedWakeup;
     "sched_wakeup_new"%string := loadSchedWakeup ]}.

Definition externals : Externals := {|
  Unknown := unknown;
  UnknownCPU := unknown;
  UnknownPID := unknown;
  threadSpanSet := spanSet;
  newThreadSpanSet := fun start _ => mkSpanSet start [];
  addTransition := fun ts tr =>
    Ok (mkSpanSet (ps_start ts) (ps_transitions ts ++ [tr]));
  threadSpans := fun ts endTS => Ok (spansOf ts endTS, ts);
  ts_droppedEventCountsByID := droppedOf;
  ts_syntheticTransitionCount := fun _ => 0;
  EventLoader := fun _ => Ok defaultLoaders;
  newEventLoader_err := fun _ => None;
  trace_NewCollection_err := fun _ => None;
  cpuTrees_err := fun _ => None;
  PerCPUCollection := perCPUCollection;
  NewPerCPUCollection := newPerCPUCollection;
  EventIndices := eventIndices
|}.

End Plain.

End Sched.
Import Sched.

(** ** Vocabulary of the statements, and concrete runs *)

Module ConverterRuns.
Import Converter Traceparser.

(** The listed paths that end in [header_page], and the others. *)
Definition headerPaths (paths : list string) : list string :=
  List.filter (fun p => HasSuffix p "header_page") paths.
Definition eventPaths (paths : list string) : list string :=
  List.filter (fun p => negb (HasSuffix p "header_page")) paths.

Definition contentOf (fs : FileSystem) (p : string) : string :=
  match ReadFile fs p with
  | Ok buf => buf
  | Err _ => EmptyString
  end.

Definition readable (fs : FileSystem) (p : string) : Prop :=
  is_Ok (ReadFile fs p) = true.

(** A file system given by its files and its directories. *)
Definition noSuchFile (p : string) : error :=
  Errorf "open %s: no such file or directory" [ArgStr p].

Definition fileSystem (files : gmap string string) (dirs : gmap string (list string))
    : FileSystem :=
  {| ReadFile := fun p => match files !! p with Some buf => Ok buf | None => Err (noSuchFile p) end;
     ReadDir := fun p => match dirs !! p with Some names => Ok names | None => Err (noSuchFile p) end |}.

Definition flags (formats traces output stats : string) : Flags :=
  {| formatFilePaths := formats; traceFilesPath := traces; outputPath := output;
     statsFilesPath := stats; outputFormat := "proto"; failOnUnknownEventFormat := true |}.

(** A header page format, a [sched_switch] format and a raw trace page,
    abridged. *)
Definition headerPage : string := "field: u64 timestamp; offset:0; size:8; signed:0;".
Definition schedSwitchFormat : string := "name: sched_switch".
Definition rawTrace : string := String "000" (String "001" (String "255" EmptyString)).

(** The stats file of [TestReadStats] with [overrun: 1]. *)
Definition overrunStats : string := createStatsString "1" "0" "0".

(** A recording with its traces under [trace/] and its stats under
    [stats/]; and one where both flags name the same directory, so that the
    file opened for CPU 0 is its stats file. *)
Definition recording : FileSystem :=
  fileSystem
    {[ "formats/header_page"%string := headerPage;
       "formats/sched_switch"%string := schedSwitchFormat;
       "trace/cpu0"%string := rawTrace;
       "stats/cpu0"%string := overrunStats ]}
    {[ "trace"%string := ["cpu0"%string]; "stats"%string := ["cpu0"%string] ]}.

Definition recordingFlags : Flags :=
  flags "formats/header_page,formats/sched_switch" "trace" "out.pb" "stats".

Definition statsOnly : FileSystem :=
  fileSystem {[ "dump/cpu0"%string := overrunStats ]} {[ "dump"%string := ["cpu0"%string] ]}.

Definition statsOnlyFlags : Flags :=
  flags "formats/header_page,formats/sched_switch" "dump" "out.pb" "dump".

(** Only the header page format is listed. *)
Definition headerOnlyFlags : Flags := flags "formats/header_page" "trace" "out.pb" "".

End ConverterRuns.

Module SchedRuns.

Section Vocabulary.
Context `{Externals}.

(** The event loop on the events themselves, in index order. *)
Fixpoint eventFold (eventLoaders : gmap string loaderFunc) (evs : list Event)
    (st : Collection * option threadSpanSet)
    : result (Collection * option threadSpanSet) :=
  match evs with
  | [] => Ok st
  | ev :: rest => st' ← eventStep eventLoaders st ev; eventFold eventLoaders rest st'
  end.

(** An event the loop passes over: clipped, or making no transition. *)
Definition skipped (eventLoaders : gmap string loaderFunc) (ev : Event) : Prop :=
  ev_Clipped ev = true \/
  forall bank, exists bank', threadTransitions eventLoaders bank ev = Ok ([], bank').

(** A scheduling event that is not clipped: it makes a transition. *)
Definition scheduling (eventLoaders : gmap string loaderFunc) (ev : Event) : Prop :=
  ev_Clipped ev = false /\
  forall bank, exists tr tts bank',
    threadTransitions eventLoaders bank ev = Ok (tr :: tts, bank').

(** The spans [buildSpansByCPU] projects: those with a known CPU and a
    known PID. *)
Definition projected (c : Collection) : list threadSpan :=
  List.filter (fun span => negb (unknownSpan span)) (allSpans (spansByPID c)).


(** The options are accepted, and so are the loaders and the event set. *)
Definition accepted (es : EventSet) (opts : list Option) (o : collectionOptions)
    (el : gmap string loaderFunc) : Prop :=
  applyOptions opts (options emptyCollection) = Ok o /\
  resolveLoaders es o = Ok el /\
  newEventLoader_err el = None /\
  trace_NewCollection_err es = None.

(** The collection [buildSpansByPID] hands to its event loop. *)
Definition loopStart (es : EventSet) (o : collectionOptions) (el : gmap string loaderFunc)
    : Collection :=
  set_TraceCollection (mkTrace (es_Event es))
    (set_stringTable newStringBank
       (set_options (mkOptions (Some el) (normalizeTimestamps o)) emptyCollection)).

(** The span set the transitions of an event are added to: the one at
    hand, or a new one. *)
Definition spanSetFor (c : Collection) (ts : option threadSpanSet) : threadSpanSet :=
  match ts with
  | None => newThreadSpanSet (startTimestamp c) (options c)
  | Some ts => ts
  end.

(** An event the inference observed: an event of the event set that is
    not clipped and makes a transition. *)
Definition observed (eventLoaders : gmap string loaderFunc) (es : EventSet) (ev : Event)
    : Prop :=
  ev ∈ es_Event es /\ ev_Clipped ev = false /\
  exists bank tr tts bank', threadTransitions eventLoaders bank ev = Ok (tr :: tts, bank').

(** The fields the event loop does not assign. *)
Definition sameFrame (c c' : Collection) : Prop :=
  options c' = options c /\ TraceCollection c' = TraceCollection c /\
  cpus c' = cpus c /\ pids c' = pids c.
End Vocabulary.

(** The spans stored for a CPU in an index, and the index of the span set
    that takes the spans of a state. *)
Definition indexed (index : gmap Z (list threadSpan)) (cpu : Z) : list threadSpan :=
  default [] (index !! cpu).

Definition indexOf (state : threadState) (cib : cpuSpanSet) : gmap Z (list threadSpan) :=
  match state with
  | RunningState => cib_running cib
  | SleepingState => cib_sleeping cib
  | WaitingState => cib_waiting cib
  | UnknownState => ∅
  end.

Definition unclipped (evs : list Event) : list Event :=
  List.filter (fun ev => negb (ev_Clipped ev)) evs.

(** The empty-collection error of line 297. *)
Definition noUsableEvents : error :=
  StatusErrorf InvalidArgument "no usable events in collection" [].

(** *** Concrete event sets *)

Definition schedSwitch (index timestamp cpu prevPID prevState nextPID : Z) (clipped : bool)
    : Event :=
  mkEvent index "sched_switch" cpu timestamp clipped ∅
    {[ "prev_pid"%string := prevPID; "prev_state"%string := prevState;
       "next_pid"%string := nextPID ]}.

(** An event no loader is registered for. *)
Definition irqEntry (index timestamp cpu : Z) : Event :=
  mkEvent index "irq_handler_entry" cpu timestamp false ∅ ∅.

(** Scenario S1 of the specification: two threads switching on CPU 0. *)
Definition twoSwitches : EventSet :=
  mkEventSet [ schedSwitch 0 1000 0 100 0 200 false;
               schedSwitch 1 2000 0 200 1 100 false ] 0.

(** The same, after an interrupt event recorded at time 400. *)
Definition irqThenSwitches : EventSet :=
  mkEventSet [ irqEntry 0 400 0;
               schedSwitch 1 1000 0 100 0 200 false;
               schedSwitch 2 2000 0 200 1 100 false ] 0.

(** The same, with the first switch on an overflowed CPU. *)
Definition clippedThenSwitch : EventSet :=
  mkEventSet [ schedSwitch 0 1000 1 100 0 200 true;
               schedSwitch 1 2000 0 200 1 100 false ] 0.

(** Three switches on CPU 0, the second one clipped. *)
Definition clippedBetweenSwitches : EventSet :=
  mkEventSet [ schedSwitch 0 1000 0 100 0 200 false;
               schedSwitch 1 1500 0 200 0 300 true;
               schedSwitch 2 2000 0 200 1 100 false ] 0.


(** The two switches, the second one on CPU 1 although both threads were
    last seen on CPU 0. *)
Definition switchOnOtherCPU : EventSet :=
  mkEventSet [ schedSwitch 0 1000 0 100 0 200 false;
               schedSwitch 1 2000 1 200 1 100 false ] 0.


(** A switch followed by an event whose loader fails. *)
Definition failingLoader : loaderFunc :=
  fun ev _ => Err (Errorf "cannot load %s" [ArgStr (ev_Name ev)]).

Definition loadersWithFailing : gmap string loaderFunc :=
  <[ "sched_process_exit"%string := failingLoader ]> Plain.defaultLoaders.

Definition switchThenFailure : EventSet :=
  mkEventSet [ schedSwitch 0 1000 0 100 0 200 false;
               mkEvent 1 "sched_process_exit" 0 2000 false ∅ ∅ ] 0.

(** A switch on CPU 0, then PID 300 woken towards CPU 1: where PID 300
    slept before is not known. *)
Definition schedWakeup (index timestamp cpu pid targetCPU : Z) : Event :=
  mkEvent index "sched_wakeup" cpu timestamp false ∅
    {[ "pid"%string := pid; "target_cpu"%string := targetCPU ]}.

Definition switchThenWakeup : EventSet :=
  mkEventSet [ schedSwitch 0 1000 0 100 0 200 false;
               schedWakeup 1 2000 0 300 1 ] 0.

(** The collection the plain implementation constructs from an event set,
    and the timestamps of the raw events it returns without filter. *)
Definition constructed (es : EventSet) (opts : list Option) : Collection :=
  match @NewCollection Plain.externals es opts with
  | Ok c => c
  | Err _ => @emptyCollection Plain.externals
  end.

Definition rawTimestamps (c : Collection) : result (list Z) :=
  match @GetRawEvents Plain.externals c [] with
  | Ok events => Ok (List.map ev_Timestamp events)
  | Err err => Err err
  end.

Definition rawIndices (c : Collection) : result (list Z) :=
  match @GetRawEvents Plain.externals c [] with
  | Ok events => Ok (List.map ev_Index events)
  | Err err => Err err
  end.

(** A collection with two dropped events and one interned command. *)
Definition sampleCollection : Collection :=
  set_stringTable {[ 5 := "bash"%string ]}
    (set_cpus {[ 3; 1 ]}
       (set_spans ∅ {[ 7 := 1; 3 := 2 ]} 0 (@emptyCollection Plain.externals))).

End SchedRuns.

(** ** Durations, and further vocabulary *)

Module Durations.

(** [time.Duration] is an [int64] count of nanoseconds, [time.Nanosecond] is
    1, and the product of two [int64] wraps around. *)
Definition mul64 (a b : Z) : Z := wrap64 (a * b).
Definition Nanosecond : Z := 1.

(** [Duration.Nanoseconds]. *)
Definition Nanoseconds (dur : Z) : Z := dur.

(** [TimestampFromDuration], [DurationFromTimestamp] and
    [DurationFromSchedDuration]. *)
Definition TimestampFromDuration (c : Collection) (dur : Z) : Z := Nanoseconds dur.
Definition DurationFromTimestamp (c : Collection) (ts : Z) : Z := mul64 ts Nanosecond.
Definition DurationFromSchedDuration (c : Collection) (dur : Z) : Z := mul64 dur Nanosecond.

End Durations.

Module ExtraRuns.
Import Converter ConverterRuns SchedRuns.

(** Whether a byte occurs in a string. *)
Fixpoint contains (c : ascii) (s : string) : bool :=
  match s with
  | EmptyString => false
  | String d s' => Ascii.eqb d c || contains c s'
  end.

(** The messages of [main]'s exits at lines 56, 59 and 81. *)
Definition formatFilesRequired : string :=
  "format_files is required. Must pass the path to at least one format file and the header_page format file.".
Definition outputPathRequired : string := "output_path is required.".
Definition headerPageRequired : string :=
  "Must pass a path to the header_page format file using the format_files argument.".

(** The message of the exit at line 69, and of the panic at line 75. *)
Definition readFailure : string := "Failed to read format file: %s".
Definition indexOutOfRange : string := "runtime error: index out of range".

(** Flags that list two event formats and no header page, and a recording
    whose header page format cannot be read. *)
Definition noHeaderFlags : Flags :=
  flags "formats/sched_switch, formats/sched_switch" "trace" "out.pb" "".

Definition missingHeaderFlags : Flags :=
  flags "formats/sched_switch,lost/header_page,formats/header_page" "trace" "out.pb" "".

(** Flags whose list of format files is padded with a no-break space
    (U+00A0) before and an em space (U+2003) after. *)
Definition paddedFlags : Flags :=
  flags (String "194" (String "160" "formats/header_page, formats/sched_switch")
           +:+ String "226" (String "128" (String "131" EmptyString)))
    "trace" "out.pb" "".

(** A file system without any file. *)
Definition emptyFileSystem : FileSystem := fileSystem ∅ ∅.




(** An option that fails. *)
Definition rejecting : Option := fun _ => Err (Errorf "option rejected" []).

(** A wake-up without its target CPU, a migration with its origin, and a
    clipped migration without it. *)
Definition wakeupWithoutTarget : Event :=
  mkEvent 0 "sched_wakeup" 2 1000 false ∅ {[ "pid"%string := 300 ]}.
Definition migration : Event :=
  mkEvent 1 "sched_migrate_task" 2 1000 false ∅
    {[ "pid"%string := 300; "orig_cpu"%string := 0; "dest_cpu"%string := 3 ]}.
Definition clippedMigration : Event :=
  mkEvent 2 "sched_migrate_task" 2 1000 true ∅ {[ "pid"%string := 300 ]}.

(** The two switches followed by an interrupt event. *)
Definition switchesThenIrq : EventSet :=
  mkEventSet [ schedSwitch 0 1000 0 100 0 200 false;
               schedSwitch 1 2000 0 200 1 100 false;
               irqEntry 2 2500 0 ] 0.

End ExtraRuns.

(** * Properties of the converter *)

Import Converter Traceparser ConverterRuns.

(** Closed statements are settled by evaluation, one conjunct at a time. *)
Ltac conjuncts := repeat match goal with |- _ /\ _ => split end.
Ltac evaluate := conjuncts; vm_compute; first [reflexivity | discriminate].

(** ** The library functions on examples *)

Example Split_format_files :
  Split "a/header_page, b/sched_switch,,c " "," =
  ["a/header_page"; " b/sched_switch"; ""; "c "]%string.
Proof. evaluate. Qed.

Example Split_empty : Split "" "," = [""%string].
Proof. reflexivity. Qed.

Example TrimSpace_path : TrimSpace "  b/sched switch  " = "b/sched switch"%string.
Proof. evaluate. Qed.

(** A no-break space (U+00A0) before, an em space (U+2003) after. *)
Example TrimSpace_unicode :
  TrimSpace (String "194" (String "160"
               (" a b " +:+ String "226" (String "128" (String "131" EmptyString)))))
  = "a b"%string.
Proof. evaluate. Qed.

(** An entry that holds a no-break space only is dropped from the list. *)
Example filteredFormatFilePaths_unicode :
  filteredFormatFilePaths
    (flags ("formats/header_page," +:+ String "194" (String "160" EmptyString))
       "trace" "out.pb" "")
  = ["formats/header_page"%string].
Proof. evaluate. Qed.

Example Clean_paths :
  Clean "trace//cpu1" = "trace/cpu1"%string /\
  Clean "./trace/../dump/cpu0/" = "dump/cpu0"%string /\
  Clean "/../a/./b" = "/a/b"%string /\
  Clean "../../a" = "../../a"%string /\
  Clean "a/.." = "."%string /\
  Clean "/" = "/"%string.
Proof. evaluate. Qed.

Example path_Join_trace :
  path_Join "trace/" "cpu1" = "trace/cpu1"%string /\
  path_Join "trace" "cpu1" = "trace/cpu1"%string /\
  path_Join "" "cpu1" = "cpu1"%string /\
  path_Join "/" "cpu1" = "/cpu1"%string.
Proof. evaluate. Qed.

Example HasSuffix_header :
  HasSuffix "formats/header_page" "header_page" = true /\
  HasSuffix "page" "header_page" = false /\
  HasSuffix "formats/header_page.txt" "header_page" = false.
Proof. evaluate. Qed.

(** The five cases of [TestReadStats]: no error, and the expected verdict. *)
Example TestReadStats :
  CPUOverflowed (createStatsString "1" "0" "0") = (true, None) /\
  CPUOverflowed (createStatsString "0" "1" "0") = (true, None) /\
  CPUOverflowed (createStatsString "0" "0" "1") = (true, None) /\
  CPUOverflowed (createStatsString "1" "1" "1") = (true, None) /\
  CPUOverflowed (createStatsString "0" "0" "0") = (false, None).
Proof. evaluate. Qed.

(** ** The format files *)

Lemma paths_split (paths : list string) :
  (length (headerPaths paths) + length (eventPaths paths))%nat = length paths.
Proof.
  unfold headerPaths, eventPaths.
  induction paths as [|p rest IH]; simpl; [reflexivity|].
  destruct (HasSuffix p "header_page"); simpl; lia.
Qed.

Lemma headerPaths_sub (paths : list string) (h : string) :
  In h (headerPaths paths) -> In h paths /\ HasSuffix h "header_page" = true.
Proof. unfold headerPaths. intros Hin. apply filter_In in Hin. exact Hin. Qed.

Lemma from_option_last_cons {A B : Type} (f : A -> B) (d : B) (x : A) (l : list A) :
  from_option f d (last (x :: l)) = from_option f (f x) (last l).
Proof. rewrite last_cons. destruct (last l); reflexivity. Qed.

(** The loop over the format files, characterised: it comes to its end
    exactly when every file can be read and the files that are not header
    pages fit in the free slots. *)
Lemma readFormatFiles_Done (fs : FileSystem) (paths : list string) :
  forall (filled : list string) (m : nat) (hc0 : string) (ff : list string) (hc : string),
    readFormatFiles fs paths (length filled) (filled ++ replicate m EmptyString) hc0
      = Done (ff, hc)
    <->
    Forall (readable fs) paths /\
    (length (eventPaths paths) <= m)%nat /\
    ff = filled ++ (contentOf fs <$> eventPaths paths)
           ++ replicate (m - length (eventPaths paths)) EmptyString /\
    hc = from_option (contentOf fs) hc0 (last (headerPaths paths)).
Proof.
  induction paths as [|p rest IH]; intros filled m hc0 ff hc.
  - simpl. rewrite Nat.sub_0_r. split.
    + intros [= <- <-]. repeat split; [constructor | lia].
    + intros (_ & _ & -> & ->). reflexivity.
  - cbn [readFormatFiles].
    destruct (ReadFile fs p) as [buf|err] eqn:Hread.
    + assert (Hp : readable fs p) by (unfold readable; rewrite Hread; reflexivity).
      assert (Hc : contentOf fs p = buf) by (unfold contentOf; rewrite Hread; reflexivity).
      unfold headerPaths, eventPaths. cbn [List.filter].
      destruct (HasSuffix p "header_page") eqn:Hsuffix; cbn [negb].
      * fold (headerPaths rest) (eventPaths rest).
        rewrite IH, from_option_last_cons, Hc.
        split; intros (HF & Hl & Hff & Hhc); repeat split; auto.
        inversion HF; assumption.
      * fold (headerPaths rest) (eventPaths rest).
        rewrite length_app, length_replicate.
        destruct m as [|m].
        { replace (length filled + 0 )%nat with (length filled) by lia.
          rewrite Nat.ltb_irrefl. split; [discriminate|].
          intros (_ & Hl & _). simpl in Hl. lia. }
        replace (length filled <? length filled + S m)%nat with true
          by (symmetry; apply Nat.ltb_lt; lia).
        rewrite insert_app_r_alt by lia.
        rewrite Nat.sub_diag. cbn [replicate]. cbn [insert list_insert].
        replace (S (length filled)) with (length (filled ++ [buf]))
          by (rewrite length_app; simpl; lia).
        replace (filled ++ buf :: replicate m EmptyString)
          with ((filled ++ [buf]) ++ replicate m EmptyString)
          by (rewrite <- app_assoc; reflexivity).
        rewrite IH. cbn [length fmap list_fmap]. rewrite <- Hc.
        replace (S m - S (length (eventPaths rest)))%nat
          with (m - length (eventPaths rest))%nat by lia.
        rewrite <- app_assoc. cbn [app].
        split; intros (HF & Hl & Hff & Hhc); repeat split; auto; try lia.
        inversion HF; assumption.
    + split; [discriminate|].
      intros (HF & _). inversion HF as [|? ? Hr]. unfold readable in Hr.
      rewrite Hread in Hr. discriminate.
Qed.

Lemma readFormatFiles_main (fs : FileSystem) (paths ff : list string) (hc : string) :
  (1 <= length paths)%nat ->
  readFormatFiles fs paths 0 (replicate (length paths - 1) EmptyString) EmptyString
    = Done (ff, hc)
  <->
  Forall (readable fs) paths /\
  (exists h, last (headerPaths paths) = Some h /\ ReadFile fs h = Ok hc) /\
  ff = (contentOf fs <$> eventPaths paths)
         ++ replicate (length (headerPaths paths) - 1) EmptyString.
Proof.
  intros Hlen.
  pose proof (readFormatFiles_Done fs paths [] (length paths - 1) EmptyString ff hc) as Hloop.
  cbn [length app] in Hloop. rewrite Hloop. clear Hloop.
  pose proof (paths_split paths) as Hsplit.
  split.
  - intros (HF & Hl & -> & ->).
    destruct (last (headerPaths paths)) as [h|] eqn:Hlast.
    + split; [assumption|]. split.
      * exists h. split; [reflexivity|]. cbn [from_option].
        assert (Hin : In h paths).
        { apply (headerPaths_sub paths h). apply list_elem_of_In.
          apply last_Some_elem_of. assumption. }
        apply list_elem_of_In in Hin.
        rewrite Forall_forall in HF. specialize (HF h Hin).
        unfold readable in HF. unfold contentOf.
        destruct (ReadFile fs h); [reflexivity | discriminate].
      * f_equal. f_equal. lia.
    + apply last_None in Hlast. rewrite Hlast in Hsplit. simpl in Hsplit. lia.
  - intros (HF & (h & Hlast & Hread) & ->).
    assert (Hne : (1 <= length (headerPaths paths))%nat).
    { destruct (headerPaths paths); [discriminate | simpl; lia]. }
    repeat split; [assumption | lia | f_equal; f_equal; lia |].
    rewrite Hlast. cbn [from_option]. unfold contentOf. rewrite Hread. reflexivity.
Qed.

Lemma filteredFormatFilePaths_unset (fl : Flags) :
  formatFilePaths fl = EmptyString -> filteredFormatFilePaths fl = [].
Proof. unfold filteredFormatFilePaths. intros ->. reflexivity. Qed.

Lemma main_formats_headerless (fl : Flags) (fs : FileSystem) (r : string * list string) :
  headerPaths (filteredFormatFilePaths fl) = [] -> main_formats fl fs <> Done r.
Proof.
  intros Hnone. unfold main_formats.
  destruct (length (filteredFormatFilePaths fl) <? 2)%nat eqn:Hlen; [discriminate|].
  apply Nat.ltb_ge in Hlen.
  destruct (String.eqb (outputPath fl) ""); [discriminate|].
  destruct (readFormatFiles fs (filteredFormatFilePaths fl) 0
              (replicate (length (filteredFormatFilePaths fl) - 1) EmptyString)
              EmptyString) as [[ff hc]| |] eqn:Hloop; try discriminate.
  apply readFormatFiles_main in Hloop; [|lia].
  destruct Hloop as (_ & (h & Hlast & _) & _). rewrite Hnone in Hlast. discriminate.
Qed.

(** C5, as amended: the flag validation of [main] passes, and
    [traceparser.New] is called, exactly when at least two paths are listed
    (after trimming, empty entries dropped), [--output_path] is set, every
    listed file can be read, a listed path ends in [header_page] and the
    header page file is not empty.  With fewer than two listed paths, so
    with the header page alone, the converter exits with status 1 at the
    first check.  Without a listed path that ends in [header_page], or
    without [--format_files], [--output_path] or [--trace_files], it exits
    with a status other than 0 before any trace file is read. *)
Theorem main_formats_proceeds_iff (traceparser_New : string -> list string -> option error)
    (fl : Flags) (fs : FileSystem) :
  (forall (hc : string) (ffs : list string),
     main_formats fl fs = Done (hc, ffs)
     <->
     (2 <= length (filteredFormatFilePaths fl))%nat /\
     outputPath fl <> EmptyString /\
     Forall (readable fs) (filteredFormatFilePaths fl) /\
     (exists h, last (headerPaths (filteredFormatFilePaths fl)) = Some h /\
                ReadFile fs h = Ok hc) /\
     hc <> EmptyString /\
     ffs = (contentOf fs <$> eventPaths (filteredFormatFilePaths fl))
             ++ replicate (length (headerPaths (filteredFormatFilePaths fl)) - 1)
                  EmptyString)
  /\
  ((length (filteredFormatFilePaths fl) < 2)%nat ->
   main_formats fl fs =
     LogExit "format_files is required. Must pass the path to at least one format file and the header_page format file." [] /\
   exitStatus (main_formats fl fs) = Some 1)
  /\
  (headerPaths (filteredFormatFilePaths fl) = [] \/
   formatFilePaths fl = EmptyString \/
   outputPath fl = EmptyString \/
   traceFilesPath fl = EmptyString ->
   exists status : Z,
     exitStatus (main_traceFiles traceparser_New fl fs) = Some status /\ status <> 0).
Proof.
  split; [|split].
  - intros hc ffs. unfold main_formats.
    destruct (length (filteredFormatFilePaths fl) <? 2)%nat eqn:Hlen.
    { apply Nat.ltb_lt in Hlen. split; [discriminate|]. intros (H2 & _). lia. }
    apply Nat.ltb_ge in Hlen.
    destruct (String.eqb (outputPath fl) "") eqn:Hout.
    { apply String.eqb_eq in Hout. split; [discriminate|].
      intros (_ & Hne & _). contradiction. }
    apply String.eqb_neq in Hout.
    destruct (readFormatFiles fs (filteredFormatFilePaths fl) 0
                (replicate (length (filteredFormatFilePaths fl) - 1) EmptyString)
                EmptyString) as [[ff hc']| |] eqn:Hloop.
    + apply readFormatFiles_main in Hloop; [|lia]. destruct Hloop as (HF & (h & Hlast & Hread) & Hff).
      destruct (String.eqb hc' "") eqn:Hhc.
      * apply String.eqb_eq in Hhc. split; [discriminate|].
        intros (_ & _ & _ & (h' & Hlast' & Hread') & Hne & _).
        rewrite Hlast in Hlast'. injection Hlast' as <-.
        rewrite Hread in Hread'. injection Hread' as <-. contradiction.
      * apply String.eqb_neq in Hhc. split.
        -- intros [= <- <-]. repeat split; try assumption. exists h. split; assumption.
        -- intros (_ & _ & _ & (h' & Hlast' & Hread') & _ & ->).
           rewrite Hlast in Hlast'. injection Hlast' as <-.
           rewrite Hread in Hread'. injection Hread' as <-. rewrite Hff. reflexivity.
    + split; [discriminate|].
      intros (_ & _ & HF & Hh & _ & _).
      assert (Hdone : readFormatFiles fs (filteredFormatFilePaths fl) 0
                (replicate (length (filteredFormatFilePaths fl) - 1) EmptyString)
                EmptyString
              = Done ((contentOf fs <$> eventPaths (filteredFormatFilePaths fl))
                        ++ replicate (length (headerPaths (filteredFormatFilePaths fl)) - 1)
                             EmptyString, hc)).
      { apply readFormatFiles_main; [lia|]. repeat split; assumption. }
      rewrite Hloop in Hdone. discriminate.
    + split; [discriminate|].
      intros (_ & _ & HF & Hh & _ & _).
      assert (Hdone : readFormatFiles fs (filteredFormatFilePaths fl) 0
                (replicate (length (filteredFormatFilePaths fl) - 1) EmptyString)
                EmptyString
              = Done ((contentOf fs <$> eventPaths (filteredFormatFilePaths fl))
                        ++ replicate (length (headerPaths (filteredFormatFilePaths fl)) - 1)
                             EmptyString, hc)).
      { apply readFormatFiles_main; [lia|]. repeat split; assumption. }
      rewrite Hloop in Hdone. discriminate.
  - intros Hlen. unfold main_formats.
    replace (length (filteredFormatFilePaths fl) <? 2)%nat with true
      by (symmetry; apply Nat.ltb_lt; exact Hlen).
    split; reflexivity.
  - intros Hmissing.
    assert (Hexit : forall A (r : run A),
              (forall a, r <> Done a) ->
              exists status : Z, exitStatus r = Some status /\ status <> 0).
    { intros A [a| |] Hr; [exfalso; exact (Hr a eq_refl) | |]; cbn [exitStatus].
      - exists 1. split; [reflexivity | discriminate].
      - exists 2. split; [reflexivity | discriminate]. }
    apply Hexit. intros traceFiles. unfold main_traceFiles.
    destruct (main_formats fl fs) as [[hc ffs]| |] eqn:Hformats; try discriminate.
    destruct (traceparser_New hc ffs); [discriminate|].
    destruct Hmissing as [Hnone | [Hformat | [Hout | Htrace]]].
    + exfalso. exact (main_formats_headerless fl fs _ Hnone Hformats).
    + exfalso. apply (main_formats_headerless fl fs (hc, ffs)); [|exact Hformats].
      rewrite (filteredFormatFilePaths_unset fl Hformat). reflexivity.
    + exfalso. unfold main_formats in Hformats.
      destruct (length (filteredFormatFilePaths fl) <? 2)%nat; [discriminate|].
      rewrite Hout in Hformats. cbn [String.eqb] in Hformats. discriminate.
    + unfold ioutil_ReadDir. rewrite Htrace. cbn [String.eqb]. discriminate.
Qed.

(** The recording with a header page and one event format goes through. *)
Lemma main_formats_recording :
  main_formats recordingFlags recording = Done (headerPage, [schedSwitchFormat]).
Proof.
  apply (proj2 (proj1 (main_formats_proceeds_iff (fun _ _ => None) recordingFlags recording)
                  headerPage [schedSwitchFormat])).
  assert (Hpaths : filteredFormatFilePaths recordingFlags
                   = ["formats/header_page"; "formats/sched_switch"]%string)
    by (vm_compute; reflexivity).
  rewrite Hpaths. split; [cbn; lia|]. split; [discriminate|]. split.
  - constructor; [vm_compute; reflexivity|].
    constructor; [vm_compute; reflexivity | constructor].
  - split; [|split; [discriminate | vm_compute; reflexivity]].
    exists "formats/header_page"%string. split; vm_compute; reflexivity.
Defined.

(** C5, as stated, fails: with the header page format as the only listed
    file and [--output_path] set, the converter exits with status 1 at the
    first check, before any file is read. *)
Lemma main_formats_header_only_exits :
  filteredFormatFilePaths headerOnlyFlags = ["formats/header_page"%string] /\
  HasSuffix "formats/header_page" "header_page" = true /\
  outputPath headerOnlyFlags <> EmptyString /\
  readable recording "formats/header_page" /\
  main_formats headerOnlyFlags recording =
    LogExit "format_files is required. Must pass the path to at least one format file and the header_page format file." [] /\
  exitStatus (main_formats headerOnlyFlags recording) = Some 1.
Proof. evaluate. Qed.

(** Without any path that ends in [header_page] the loop runs off the end of
    [formatFiles]: the exit is a panic, not the message of line 81. *)
Example main_formats_no_header_panics :
  main_formats (flags "formats/sched_switch,formats/sched_switch" "trace" "out.pb" "")
    recording = Panic "runtime error: index out of range".
Proof. evaluate. Qed.

(** ** The overflowed CPUs *)

(** The set built by the loop: CPU [i + k] is added exactly when the call
    for the [k]-th entry returns an error together with [overflowed]. *)
Lemma overflowLoop_elem (oracle : string -> bool * option error) (fl : Flags)
    (fs : FileSystem) (names : list string) :
  forall (i : Z) (acc s : gset Z),
    overflowLoop oracle fl fs i names acc = Done s ->
    forall cpu : Z,
      cpu ∈ s <->
      cpu ∈ acc \/
      exists (k : nat) (name content : string) (err : error),
        names !! k = Some name /\ cpu = i + Z.of_nat k /\
        ReadFile fs (path_Join (traceFilesPath fl) name) = Ok content /\
        oracle content = (true, Some err).
Proof.
  induction names as [|name rest IH]; intros i acc s Hrun cpu.
  - injection Hrun as <-. split; [auto|].
    intros [Hin | (k & n & c & e & Hk & _)]; [assumption | discriminate].
  - cbn [overflowLoop] in Hrun.
    destruct (ReadFile fs (path_Join (traceFilesPath fl) name)) as [content|] eqn:Hread;
      [|discriminate].
    destruct (oracle content) as [overflowed err] eqn:Horacle.
    assert (Hrest : forall k n c e,
      ((name :: rest) !! S k = Some n /\ cpu = i + Z.of_nat (S k) /\
       ReadFile fs (path_Join (traceFilesPath fl) n) = Ok c /\ oracle c = (true, Some e))
      <-> (rest !! k = Some n /\ cpu = i + 1 + Z.of_nat k /\
           ReadFile fs (path_Join (traceFilesPath fl) n) = Ok c /\ oracle c = (true, Some e))).
    { intros. cbn [lookup list_lookup]. split; intros (? & ? & ? & ?); repeat split; auto; lia. }
    destruct (bool_decide (err <> None) && overflowed) eqn:Hadd.
    + apply andb_true_iff in Hadd. destruct Hadd as [Herr ->].
      apply bool_decide_eq_true in Herr. destruct err as [e|]; [|contradiction].
      rewrite (IH _ _ _ Hrun cpu). rewrite elem_of_union, elem_of_singleton. split.
      * intros [[-> | Hin] | (k & n & c & e' & Hk)].
        -- right. exists 0%nat, name, content, e. cbn. repeat split; auto. lia.
        -- left. assumption.
        -- right. exists (S k), n, c, e'. apply Hrest. assumption.
      * intros [Hin | (k & n & c & e' & Hk)]; [left; right; assumption|].
        destruct k as [|k].
        -- left. left. destruct Hk as (_ & -> & _). lia.
        -- right. exists k, n, c, e'. apply Hrest. assumption.
    + rewrite (IH _ _ _ Hrun cpu). split.
      * intros [Hin | (k & n & c & e' & Hk)]; [left; assumption|].
        right. exists (S k), n, c, e'. apply Hrest. assumption.
      * intros [Hin | (k & n & c & e' & Hk)]; [left; assumption|].
        destruct k as [|k].
        -- exfalso. destruct Hk as (Hk & _ & Hr & Ho). cbn in Hk. injection Hk as <-.
           rewrite Hread in Hr. injection Hr as <-. rewrite Horacle in Ho.
           injection Ho as -> ->. cbn in Hadd. discriminate.
        -- right. exists k, n, c, e'. apply Hrest. assumption.
Qed.

(** The oracle reports an overflow only without error. *)
Lemma CPUOverflowed_overflow_no_error (stats : string) (err : error) :
  CPUOverflowed stats <> (true, Some err).
Proof.
  unfold CPUOverflowed. induction (Split stats "010") as [|line rest IH]; cbn.
  - discriminate.
  - destruct (statsField line) as [[key value]|]; [|assumption].
    destruct (isOverflowCounter (TrimSpace key)); [|assumption].
    destruct (parseCounter (TrimSpace value)) as [n|]; [|discriminate].
    destruct (n =? 0); [assumption | discriminate].
Qed.

(** With that oracle no CPU is ever recorded as overflowed. *)
Lemma main_overflowedCPUs_empty (fl : Flags) (fs : FileSystem) (s : gset Z) :
  main_overflowedCPUs CPUOverflowed fl fs = Done s -> s = ∅.
Proof.
  unfold main_overflowedCPUs. destruct (main_statsFiles fl fs) as [names| |]; try discriminate.
  intros Hrun. apply set_eq. intros cpu.
  rewrite (overflowLoop_elem _ _ _ _ _ _ _ Hrun cpu). split.
  - intros [Hin | (k & n & c & e & _ & _ & _ & Ho)]; [assumption|].
    exfalso. exact (CPUOverflowed_overflow_no_error c e Ho).
  - intros Hin. left. assumption.
Qed.

(** C1: the stats file of CPU 0 parses without error and reports
    [overrun: 1], yet the converter hands an empty set of overflowed CPUs to
    the event set builder, whether the entry is opened under the trace
    directory (as line 107 does) or the two directories are the same. *)
Theorem main_overflowedCPUs_misses_overrun :
  CPUOverflowed overrunStats = (true, None) /\
  main_statsFiles recordingFlags recording = Done ["cpu0"%string] /\
  main_overflowedCPUs CPUOverflowed recordingFlags recording = Done ∅ /\
  main_overflowedCPUs CPUOverflowed statsOnlyFlags statsOnly = Done ∅.
Proof. evaluate. Qed.

(** * Properties of the collection *)

Import SchedRuns.

(** ** Sorting *)

Lemma sortInts_elem (x : Z) (l : list Z) : x ∈ sortInts l <-> x ∈ l.
Proof. unfold sortInts. rewrite merge_sort_Permutation. reflexivity. Qed.

Lemma le_NoDup_lt (l : list Z) :
  StronglySorted Z.le l -> NoDup l -> StronglySorted Z.lt l.
Proof.
  induction 1 as [|x l Hsorted IH Hall]; intros Hnodup; constructor.
  - apply IH. apply NoDup_cons in Hnodup. tauto.
  - apply NoDup_cons in Hnodup. destruct Hnodup as [Hnotin _].
    rewrite Forall_forall in Hall |- *. intros y Hy.
    assert (x <> y) by (intros ->; contradiction).
    specialize (Hall y Hy). lia.
Qed.

Lemma sortInts_strict (l : list Z) : NoDup l -> StronglySorted Z.lt (sortInts l).
Proof.
  intros Hnodup. apply le_NoDup_lt.
  - unfold sortInts. apply StronglySorted_merge_sort; apply _.
  - unfold sortInts. rewrite merge_sort_Permutation. assumption.
Qed.

(** Whatever the order in which the keys are met, the sorted slice is the
    same. *)
Lemma sortInts_order (l1 l2 : list Z) : l1 ≡ₚ l2 -> sortInts l1 = sortInts l2.
Proof.
  intros Hperm. unfold sortInts.
  apply (StronglySorted_unique Z.le).
  - apply StronglySorted_merge_sort; apply _.
  - apply StronglySorted_merge_sort; apply _.
  - rewrite !merge_sort_Permutation. assumption.
Qed.

Section Queries.
Context `{Externals}.

(** [DroppedEventIDs] is in strictly ascending order, so without
    duplicates, and holds exactly the event IDs recorded in the map of
    dropped events; the order in which the map is ranged over does not
    show. *)
Lemma DroppedEventIDs_keys (c : Collection) :
  StronglySorted Z.lt (DroppedEventIDs c) /\
  NoDup (DroppedEventIDs c) /\
  (forall eventID : Z,
     eventID ∈ DroppedEventIDs c <-> is_Some (droppedEventCountsByID c !! eventID)) /\
  (forall keys : list Z,
     keys ≡ₚ fst <$> map_to_list (droppedEventCountsByID c) ->
     sortInts keys = DroppedEventIDs c).
Proof.
  unfold DroppedEventIDs.
  assert (Hnodup : NoDup (fst <$> map_to_list (droppedEventCountsByID c)))
    by apply NoDup_fst_map_to_list.
  repeat split.
  - apply sortInts_strict. assumption.
  - unfold sortInts. rewrite merge_sort_Permutation. assumption.
  - rewrite sortInts_elem. intros Hin.
    apply list_elem_of_fmap in Hin. destruct Hin as ([k v] & -> & Hin).
    apply elem_of_map_to_list in Hin. exists v. assumption.
  - rewrite sortInts_elem. intros [v Hv].
    apply list_elem_of_fmap. exists (eventID, v). split; [reflexivity|].
    apply elem_of_map_to_list. assumption.
  - intros keys Hperm. apply sortInts_order. assumption.
Qed.

(** C9: the reserved ID 0 gives the literal ["<unknown>"] without error;
    any other ID gives the string stored under it, and fails exactly when
    the table has no string for it. *)
Theorem LookupCommand_spec (c : Collection) :
  LookupCommand c 0 = Ok "<unknown>"%string /\
  LookupCommand c UnknownCommand = Ok "<unknown>"%string /\
  (forall command : Z,
     command <> UnknownCommand ->
     (forall s, c_stringTable c !! command = Some s -> LookupCommand c command = Ok s) /\
     (c_stringTable c !! command = None ->
      LookupCommand c command =
        Err (StatusErrorf Internal "failed to find command for id %d" [ArgInt command])) /\
     (is_Ok (LookupCommand c command) = false <->
      is_Ok (stringByID (c_stringTable c) command) = false)).
Proof.
  split; [reflexivity|]. split; [reflexivity|].
  intros command Hne. unfold LookupCommand, stringByID.
  rewrite bool_decide_eq_false_2 by assumption.
  destruct (c_stringTable c !! command) as [s|]; repeat split; try discriminate; auto.
  intros s' [= <-]. reflexivity.
Qed.

(** C10: a non-empty slice comes back as it is; for the empty slice the
    result holds exactly the CPUs of the collection, in strictly
    increasing order. *)
Theorem ExpandCPUs_spec (c : Collection) :
  (forall cpus : list Z, cpus <> [] -> ExpandCPUs c cpus = cpus) /\
  StronglySorted Z.lt (ExpandCPUs c []) /\
  (forall cpu : Z, cpu ∈ ExpandCPUs c [] <-> cpu ∈ CPUs c []) /\
  CPUs c [] = cpus c.
Proof.
  repeat split.
  - intros cpus Hne. unfold ExpandCPUs.
    destruct cpus; [contradiction | reflexivity].
  - unfold ExpandCPUs. cbn [length bool_decide]. rewrite bool_decide_eq_true_2 by reflexivity.
    apply sortInts_strict. apply NoDup_elements.
  - unfold ExpandCPUs. rewrite bool_decide_eq_true_2 by reflexivity.
    rewrite sortInts_elem. intros Hin. apply elem_of_elements in Hin. assumption.
  - unfold ExpandCPUs. rewrite bool_decide_eq_true_2 by reflexivity.
    rewrite sortInts_elem. intros Hin. apply elem_of_elements. assumption.
Qed.

(** The loop of [GetRawEvents]: one event for each index, in order, with
    the offset taken off its timestamp. *)
Lemma rawEvents_Forall2 (c : Collection) (indices : list Z) :
  forall events : list Event,
    rawEvents c indices = Ok events ->
    Forall2
      (fun eventIndex ev' =>
         exists ev,
           EventByIndex (TraceCollection c) eventIndex = Ok ev /\
           ev' = ev_setTimestamp (sub64 (ev_Timestamp ev) (NormalizationOffset c)) ev)
      indices events.
Proof.
  induction indices as [|i rest IH]; intros events Hrun; cbn in Hrun.
  - injection Hrun as <-. constructor.
  - destruct (EventByIndex (TraceCollection c) i) as [ev|] eqn:Hev; [|discriminate].
    cbn in Hrun.
    destruct (rawEvents c rest) as [more|] eqn:Hrest; [|discriminate].
    cbn in Hrun. injection Hrun as <-. constructor.
    + exists ev. split; [exact Hev | reflexivity].
    + apply IH. reflexivity.
Qed.

Lemma wrap64_int64 (z : Z) : int64 z -> wrap64 z = z.
Proof.
  unfold int64, wrap64. intros Hz.
  rewrite Z.mod_small by lia. lia.
Qed.


Lemma ev_setTimestamp_same (ev : Event) : ev_setTimestamp (ev_Timestamp ev) ev = ev.
Proof. destruct ev. reflexivity. Qed.

(** C6: every event returned by [GetRawEvents] is the stored event of an
    index of the per-CPU index, with the normalization offset subtracted
    (in [int64]) from its timestamp and nothing else changed; with a zero
    offset the event is returned as stored. *)
Theorem GetRawEvents_normalized (c : Collection) (filters : list Filter)
    (events : list Event) :
  GetRawEvents c filters = Ok events ->
  exists perCPUColl,
    NewPerCPUCollection c cpuLookupFunc = Ok perCPUColl /\
    Forall2
      (fun eventIndex ev' =>
         exists ev,
           EventByIndex (TraceCollection c) eventIndex = Ok ev /\
           ev' = ev_setTimestamp (sub64 (ev_Timestamp ev) (NormalizationOffset c)) ev /\
           ev_Timestamp ev' = sub64 (ev_Timestamp ev) (NormalizationOffset c) /\
           (NormalizationOffset c = 0 -> int64 (ev_Timestamp ev) -> ev' = ev))
      (EventIndices perCPUColl filters) events.
Proof.
  unfold GetRawEvents. intros Hrun.
  destruct (NewPerCPUCollection c cpuLookupFunc) as [pc|] eqn:Hpc; [|discriminate].
  cbn in Hrun. exists pc. split; [reflexivity|].
  apply rawEvents_Forall2 in Hrun.
  eapply Forall2_impl; [exact Hrun|].
  intros i ev' (ev & Hev & ->). exists ev. repeat split; auto.
  intros Hzero Hint. rewrite Hzero. unfold sub64. rewrite Z.sub_0_r.
  rewrite wrap64_int64 by assumption. apply ev_setTimestamp_same.
Qed.
End Queries.

(** ** The event index *)

Lemma lookupAll_Forall2 (lookup : Event -> result (list Z)) (evs : list Event) :
  forall entries,
    lookupAll lookup evs = Ok entries ->
    Forall2 (fun ev entry => entry.1 = ev /\ lookup ev = Ok entry.2) evs entries.
Proof.
  induction evs as [|ev evs IH]; intros entries Hrun; cbn [lookupAll] in Hrun.
  - injection Hrun as <-. constructor.
  - destruct (lookup ev) as [cs|] eqn:Hcs; [|discriminate]. cbn [mbind result_bind] in Hrun.
    destruct (lookupAll lookup evs) as [more|]; [|discriminate].
    cbn [mbind result_bind] in Hrun. injection Hrun as <-.
    constructor; [split; [reflexivity | exact Hcs] | apply IH; reflexivity].
Qed.

Lemma indicesFrom_elem (c : Collection) (f : filter) (entries : list (Event * list Z)) :
  forall (i k : Z),
    k ∈ indicesFrom c f i entries ->
    exists (j : nat) entry,
      k = i + Z.of_nat j /\ entries !! j = Some entry /\ filteredIn c f entry = true.
Proof.
  induction entries as [|entry rest IH]; intros i k Hk; cbn [indicesFrom] in Hk.
  - inversion Hk.
  - assert (Hrest : k ∈ indicesFrom c f (i + 1) rest ->
                    exists (j : nat) entry',
                      k = i + Z.of_nat j /\ (entry :: rest) !! j = Some entry' /\
                      filteredIn c f entry' = true).
    { intros Hin. destruct (IH _ _ Hin) as (j & entry' & -> & Hj & Hf).
      exists (S j), entry'. split; [lia|]. split; [exact Hj | exact Hf]. }
    destruct (filteredIn c f entry) eqn:Hentry; [|exact (Hrest Hk)].
    apply elem_of_cons in Hk. destruct Hk as [-> | Hk]; [|exact (Hrest Hk)].
    exists 0%nat, entry. split; [lia|]. split; [reflexivity | exact Hentry].
Qed.

(** An index the event index gives out is the index of an event of the
    trace collection that the lookup function gives CPUs and the filter
    lets in. *)
Lemma eventIndices_elem (c : Collection) (lookup : Event -> result (list Z))
    (pc : perCPUCollection) (filters : list Filter) (k : Z) :
  newPerCPUCollection c lookup = Ok pc ->
  k ∈ eventIndices pc filters ->
  exists ev cs,
    EventByIndex (TraceCollection c) k = Ok ev /\ lookup ev = Ok cs /\
    filteredIn c (buildFilter c filters) (ev, cs) = true.
Proof.
  unfold newPerCPUCollection, eventIndices.
  destruct (lookupAll lookup (tc_events (TraceCollection c))) as [entries|] eqn:Hall;
    [|discriminate].
  cbn [mbind result_bind]. intros [= <-]. cbn [pc_collection pc_cpus]. intros Hk.
  apply indicesFrom_elem in Hk. destruct Hk as (j & [ev cs] & -> & Hj & Hf).
  apply lookupAll_Forall2 in Hall.
  destruct (Forall2_lookup_r _ _ _ _ _ Hall Hj) as (ev' & Hev' & Heq & Hcs).
  cbn in Heq, Hcs. subst ev'. exists ev, cs. split; [|split; assumption].
  unfold EventByIndex. destruct (Z.ltb_spec (0 + Z.of_nat j) 0); [lia|].
  replace (Z.to_nat (0 + Z.of_nat j)) with j by lia. rewrite Hev'. reflexivity.
Qed.


(** With that index, [GetRawEvents] returns events of the trace collection
    that [cpuLookupFunc] gives CPUs and the filter lets in, each with the
    offset taken off its timestamp. *)
Lemma GetRawEvents_indexed `{Externals} (c : Collection) (filters : list Filter)
    (events : list Event) :
  @GetRawEvents (withEventIndex _) c filters = Ok events ->
  Forall
    (fun ev' =>
       exists ev cs,
         ev ∈ tc_events (TraceCollection c) /\ cpuLookupFunc ev = Ok cs /\
         filteredIn c (buildFilter c filters) (ev, cs) = true /\
         ev' = ev_setTimestamp (sub64 (ev_Timestamp ev) (NormalizationOffset c)) ev)
    events.
Proof.
  unfold GetRawEvents. cbn [NewPerCPUCollection EventIndices withEventIndex].
  destruct (newPerCPUCollection c cpuLookupFunc) as [pc|] eqn:Hpc; [|discriminate].
  cbn [mbind result_bind]. intros Hrun. apply rawEvents_Forall2 in Hrun.
  apply Forall2_Forall_r with (1 := Hrun). apply Forall_forall.
  intros k Hk ev' (ev & Hev & ->).
  destruct (eventIndices_elem c cpuLookupFunc pc filters k Hpc Hk) as (ev0 & cs & Hev0 & Hcs & Hf).
  rewrite Hev in Hev0. injection Hev0 as <-. exists ev, cs.
  split; [|split; [exact Hcs | split; [exact Hf | reflexivity]]].
  unfold EventByIndex in Hev. destruct (k <? 0); [discriminate|].
  destruct (tc_events (TraceCollection c) !! Z.to_nat k) as [ev1|] eqn:Hi; [|discriminate].
  injection Hev as <-. eapply list_elem_of_lookup_2. exact Hi.
Qed.

(** A clipped event is filed under no CPU, so no filter lets it in. *)
Lemma filteredIn_cpus (c : Collection) (f : filter) (ev : Event) :
  filteredIn c f (ev, []) = false.
Proof.
  unfold filteredIn. cbn [snd].
  rewrite (bool_decide_eq_false_2 (Exists _ [])) by (intros Hex; inversion Hex).
  rewrite andb_false_r. reflexivity.
Qed.

(** ** The CPU projection *)

Lemma indexed_bucket (span s : threadSpan) (m : gmap Z (list threadSpan)) (cpu : Z) :
  s ∈ indexed (bucket span m) cpu <->
  s ∈ indexed m cpu \/ (s = span /\ span_cpu span = cpu).
Proof.
  unfold indexed, bucket.
  destruct (decide (span_cpu span = cpu)) as [<-|Hne].
  - rewrite lookup_insert_eq. cbn [default from_option id].
    rewrite elem_of_app, list_elem_of_singleton. tauto.
  - rewrite lookup_insert_ne by assumption. tauto.
Qed.

Lemma indexed_addSpan (cib : cpuSpanSet) (span s : threadSpan) (state : threadState)
    (cpu : Z) :
  state <> UnknownState ->
  s ∈ indexed (indexOf state (addSpan cib span)) cpu <->
  s ∈ indexed (indexOf state cib) cpu \/
  (s = span /\ span_state span = state /\ span_cpu span = cpu).
Proof.
  intros Hstate. unfold addSpan.
  destruct (span_state span) eqn:Hspan; destruct state; try contradiction;
    cbn [indexOf cib_running cib_sleeping cib_waiting];
    rewrite ?indexed_bucket; intuition congruence.
Qed.

Lemma indexed_sortByStart (m : gmap Z (list threadSpan)) (cpu : Z) (s : threadSpan) :
  s ∈ indexed (sortByStart <$> m) cpu <-> s ∈ indexed m cpu.
Proof.
  unfold indexed. rewrite lookup_fmap.
  destruct (m !! cpu) as [spans|]; cbn; [|reflexivity].
  unfold sortByStart. rewrite merge_sort_Permutation. reflexivity.
Qed.

Section Projection.
Context `{Externals}.

Lemma collection_eta (c : Collection) : set_cpus (cpus c) (set_pids (pids c) c) = c.
Proof. destruct c. reflexivity. Qed.

(** The two loops of [buildSpansByCPU]: only the cached CPUs and PIDs of
    the collection change, by the CPUs and PIDs of the known spans, and
    each known span goes to the index of its state under its CPU. *)
Lemma projectSpan_fold (spans : list threadSpan) :
  forall (c : Collection) (cib : cpuSpanSet) (c' : Collection) (cib' : cpuSpanSet),
    foldl projectSpan (c, cib) spans = (c', cib') ->
    (exists cs ps,
       c' = set_cpus cs (set_pids ps c) /\
       (forall x, x ∈ cs <->
          x ∈ cpus c \/ exists s, s ∈ spans /\ unknownSpan s = false /\ span_cpu s = x) /\
       (forall x, x ∈ ps <->
          x ∈ pids c \/ exists s, s ∈ spans /\ unknownSpan s = false /\ span_pid s = x)) /\
    (forall state cpu s,
       state <> UnknownState ->
       s ∈ indexed (indexOf state cib') cpu <->
       s ∈ indexed (indexOf state cib) cpu \/
       (s ∈ spans /\ unknownSpan s = false /\ span_state s = state /\ span_cpu s = cpu)).
Proof.
  induction spans as [|span rest IH]; intros c cib c' cib' Hfold.
  - cbn in Hfold. injection Hfold as <- <-. split.
    + exists (cpus c), (pids c). rewrite collection_eta. split; [reflexivity|].
      split; intros x; (split; [auto|]);
        intros [Hin | (s & Hs & _)]; auto; inversion Hs.
    + intros state cpu s _. split; [auto|].
      intros [Hin | (Hs & _)]; auto; inversion Hs.
  - cbn [foldl] in Hfold. unfold projectSpan at 2 in Hfold.
    destruct (unknownSpan span) eqn:Hunknown.
    + destruct (IH _ _ _ _ Hfold) as ((cs & ps & -> & Hcs & Hps) & Hidx). split.
      * exists cs, ps. split; [reflexivity|].
        split; intros x; [rewrite Hcs | rewrite Hps]; split;
          (intros [Hin | (s & Hs & Hk & Hx)]; [left; assumption | right; exists s]);
          repeat split; auto.
        -- right; assumption.
        -- apply elem_of_cons in Hs. destruct Hs as [-> | Hs]; [congruence | assumption].
        -- right; assumption.
        -- apply elem_of_cons in Hs. destruct Hs as [-> | Hs]; [congruence | assumption].
      * intros state cpu s Hstate. rewrite (Hidx state cpu s Hstate). split.
        -- intros [Hin | (Hs & Hrest)]; [left; assumption|].
           right. split; [right; assumption | assumption].
        -- intros [Hin | (Hs & Hk & Hrest)]; [left; assumption|].
           apply elem_of_cons in Hs. destruct Hs as [-> | Hs]; [congruence|].
           right. repeat split; tauto.
    + destruct (IH _ _ _ _ Hfold) as ((cs & ps & -> & Hcs & Hps) & Hidx). split.
      * exists cs, ps. split; [reflexivity|].
        split; intros x; [rewrite Hcs | rewrite Hps]; cbn;
          rewrite elem_of_union, elem_of_singleton; split.
        -- intros [[-> | Hin] | (s & Hs & Hk & Hx)].
           ++ right. exists span. repeat split; auto. left.
           ++ left. assumption.
           ++ right. exists s. repeat split; auto. right. assumption.
        -- intros [Hin | (s & Hs & Hk & Hx)]; [left; right; assumption|].
           apply elem_of_cons in Hs. destruct Hs as [-> | Hs].
           ++ left. left. symmetry. assumption.
           ++ right. exists s. repeat split; auto.
        -- intros [[-> | Hin] | (s & Hs & Hk & Hx)].
           ++ right. exists span. repeat split; auto. left.
           ++ left. assumption.
           ++ right. exists s. repeat split; auto. right. assumption.
        -- intros [Hin | (s & Hs & Hk & Hx)]; [left; right; assumption|].
           apply elem_of_cons in Hs. destruct Hs as [-> | Hs].
           ++ left. left. symmetry. assumption.
           ++ right. exists s. repeat split; auto.
      * intros state cpu s Hstate.
        rewrite (Hidx state cpu s Hstate), (indexed_addSpan _ _ _ _ _ Hstate). split.
        -- intros [[Hin | (-> & Hst & Hcpu)] | (Hs & Hrest)].
           ++ left. assumption.
           ++ right. repeat split; auto. left.
           ++ right. split; [right; assumption | assumption].
        -- intros [Hin | (Hs & Hk & Hst & Hcpu)]; [left; left; assumption|].
           apply elem_of_cons in Hs. destruct Hs as [-> | Hs].
           ++ left. right. repeat split; assumption.
           ++ right. repeat split; assumption.
Qed.

Lemma elem_of_projected (c : Collection) (s : threadSpan) :
  s ∈ projected c <->
  s ∈ allSpans (spansByPID c) /\ span_cpu s <> UnknownCPU /\ span_pid s <> UnknownPID.
Proof.
  unfold projected. rewrite !list_elem_of_In, filter_In.
  unfold unknownSpan. rewrite negb_true_iff, orb_false_iff.
  rewrite !bool_decide_eq_false. tauto.
Qed.

Lemma known_projected (c : Collection) (s : threadSpan) :
  s ∈ allSpans (spansByPID c) /\ unknownSpan s = false <-> s ∈ projected c.
Proof.
  unfold projected. rewrite !list_elem_of_In, filter_In, negb_true_iff. tauto.
Qed.

(** [buildSpansByCPU], characterised. *)
Lemma buildSpansByCPU_spec (c c' : Collection) :
  buildSpansByCPU c = Ok c' ->
  (exists cs ps r s w, c' = set_cpuIndexes r s w (set_cpus cs (set_pids ps c))) /\
  (forall x, x ∈ cpus c' <-> x ∈ cpus c \/ exists s, s ∈ projected c /\ span_cpu s = x) /\
  (forall x, x ∈ pids c' <-> x ∈ pids c \/ exists s, s ∈ projected c /\ span_pid s = x) /\
  (forall cpu s,
     (s ∈ indexed (runningSpansByCPU c') cpu <->
      s ∈ projected c /\ span_state s = RunningState /\ span_cpu s = cpu) /\
     (s ∈ indexed (sleepingSpansByCPU c') cpu <->
      s ∈ projected c /\ span_state s = SleepingState /\ span_cpu s = cpu) /\
     (s ∈ indexed (waitingSpansByCPU c') cpu <->
      s ∈ projected c /\ span_state s = WaitingState /\ span_cpu s = cpu)).
Proof.
  unfold buildSpansByCPU.
  destruct (foldl projectSpan (c, newCPUSpanSet) (allSpans (spansByPID c)))
    as [c1 cib] eqn:Hfold.
  apply projectSpan_fold in Hfold. destruct Hfold as ((cs & ps & -> & Hcs & Hps) & Hidx).
  unfold cpuTrees. destruct (cpuTrees_err cib); [discriminate|].
  cbn. intros [= <-]. split; [eauto 10|]. cbn.
  split; [|split].
  - intros x. rewrite Hcs. setoid_rewrite <- known_projected. split.
    + intros [Hin | (s & Hs & Hk & Hx)]; [left; assumption | right; exists s; tauto].
    + intros [Hin | (s & (Hs & Hk) & Hx)]; [left; assumption | right; exists s; tauto].
  - intros x. rewrite Hps. setoid_rewrite <- known_projected. split.
    + intros [Hin | (s & Hs & Hk & Hx)]; [left; assumption | right; exists s; tauto].
    + intros [Hin | (s & (Hs & Hk) & Hx)]; [left; assumption | right; exists s; tauto].
  - intros cpu s. rewrite indexed_sortByStart.
    pose proof (Hidx RunningState cpu s ltac:(discriminate)) as Hr.
    pose proof (Hidx SleepingState cpu s ltac:(discriminate)) as Hs.
    pose proof (Hidx WaitingState cpu s ltac:(discriminate)) as Hw.
    cbn [indexOf newCPUSpanSet cib_running cib_sleeping cib_waiting] in Hr, Hs, Hw.
    rewrite Hr, Hs, Hw, <- !known_projected. unfold indexed. rewrite lookup_empty. cbn.
    assert (Hnil : ~ s ∈ []) by (intros Hin; inversion Hin).
    tauto.
Qed.
End Projection.

(** ** The event loop *)

Section EventLoop.
Context `{Externals}.

(** Ranging over the indices and fetching each event is ranging over the
    events. *)
Lemma eventLoop_suffix (el : gmap string loaderFunc) (suf : list Event) :
  forall (pre : list Event) (st : Collection * option threadSpanSet),
    eventLoop el (mkTrace (pre ++ suf))
      (seqZ (Z.of_nat (length pre)) (Z.of_nat (length suf))) st
    = eventFold el suf st.
Proof.
  induction suf as [|ev suf IH]; intros pre st.
  - reflexivity.
  - rewrite seqZ_cons by (cbn [length]; lia).
    cbn [eventLoop eventFold].
    assert (Hev : EventByIndex (mkTrace (pre ++ ev :: suf)) (Z.of_nat (length pre)) = Ok ev).
    { unfold EventByIndex. cbn [tc_events].
      destruct (Z.ltb_spec (Z.of_nat (length pre)) 0); [lia|].
      rewrite Nat2Z.id, list_lookup_middle by reflexivity. reflexivity. }
    rewrite Hev. cbn [mbind result_bind].
    destruct (eventStep el st ev) as [st'|]; [|reflexivity].
    replace (pre ++ ev :: suf) with ((pre ++ [ev]) ++ suf)
      by (rewrite <- app_assoc; reflexivity).
    replace (Z.succ (Z.of_nat (length pre))) with (Z.of_nat (length (pre ++ [ev])))
      by (rewrite length_app; cbn [length]; lia).
    replace (Z.pred (Z.of_nat (length (ev :: suf)))) with (Z.of_nat (length suf))
      by (cbn [length]; lia).
    apply IH.
Qed.

Lemma eventLoop_events (el : gmap string loaderFunc) (evs : list Event)
    (st : Collection * option threadSpanSet) :
  eventLoop el (mkTrace evs) (seqZ 0 (EventCount (mkTrace evs))) st = eventFold el evs st.
Proof. apply (eventLoop_suffix el evs []). Qed.

Lemma eventFold_app (el : gmap string loaderFunc) (pre suf : list Event) :
  forall st : Collection * option threadSpanSet,
    eventFold el (pre ++ suf) st = st' ← eventFold el pre st; eventFold el suf st'.
Proof.
  induction pre as [|ev pre IH]; intros st; cbn [app eventFold].
  - reflexivity.
  - destruct (eventStep el st ev) as [st'|]; cbn [mbind result_bind]; [apply IH | reflexivity].
Qed.

(** The three ways a turn of the loop goes on: the event is clipped and
    nothing changes, it makes no transition and only the string bank may
    change, or it makes transitions, which are recorded and added. *)
Lemma eventStep_cases (el : gmap string loaderFunc) (c : Collection)
    (ts : option threadSpanSet) (ev : Event) (c' : Collection)
    (ts' : option threadSpanSet) :
  eventStep el (c, ts) ev = Ok (c', ts') ->
  (ev_Clipped ev = true /\ c' = c /\ ts' = ts) \/
  (ev_Clipped ev = false /\
   exists bank,
     threadTransitions el (c_stringTable c) ev = Ok ([], bank) /\
     c' = set_stringTable bank c /\ ts' = ts) \/
  (ev_Clipped ev = false /\
   exists tr tts bank ts1,
     threadTransitions el (c_stringTable c) ev = Ok (tr :: tts, bank) /\
     c' = recordTransitions ev (tr :: tts) (startNormalization ev (set_stringTable bank c)) /\
     ts' = Some ts1).
Proof.
  unfold eventStep. destruct (ev_Clipped ev).
  - intros [= <- <-]. left. auto.
  - destruct (threadTransitions el (c_stringTable c) ev) as [[tts bank]|]; [|discriminate].
    cbn [mbind result_bind]. destruct tts as [|tr tts].
    + intros [= <- <-]. right. left. eauto.
    + rewrite bool_decide_eq_false_2 by discriminate.
      destruct (addTransitions _ _) as [ts1|]; [|discriminate].
      cbn [mbind result_bind]. intros [= <- <-]. right. right.
      split; [reflexivity|]. exists tr, tts, bank, ts1. auto.
Qed.

Lemma startNormalization_frame (ev : Event) (c : Collection) :
  sameFrame c (startNormalization ev c).
Proof.
  unfold startNormalization, sameFrame.
  destruct (bool_decide _); repeat split; reflexivity.
Qed.

Lemma eventStep_frame (el : gmap string loaderFunc) (c : Collection)
    (ts : option threadSpanSet) (ev : Event) (c' : Collection)
    (ts' : option threadSpanSet) :
  eventStep el (c, ts) ev = Ok (c', ts') -> sameFrame c c'.
Proof.
  intros Hstep. apply eventStep_cases in Hstep.
  destruct Hstep as [(_ & -> & _) | [(_ & bank & _ & -> & _) | (_ & tr & tts & bank & ts1 & _ & -> & _)]].
  - repeat split; reflexivity.
  - repeat split; reflexivity.
  - destruct (startNormalization_frame ev (set_stringTable bank c)) as (Ho & Ht & Hc & Hp).
    repeat split; cbn; assumption.
Qed.

Lemma eventFold_frame (el : gmap string loaderFunc) (evs : list Event) :
  forall c ts c' ts',
    eventFold el evs (c, ts) = Ok (c', ts') -> sameFrame c c'.
Proof.
  induction evs as [|ev evs IH]; intros c ts c' ts' Hfold; cbn [eventFold] in Hfold.
  - injection Hfold as <- <-. repeat split; reflexivity.
  - destruct (eventStep el (c, ts) ev) as [[c1 ts1]|] eqn:Hstep; [|discriminate].
    cbn [mbind result_bind] in Hfold.
    apply eventStep_frame in Hstep. apply IH in Hfold.
    destruct Hstep as (? & ? & ? & ?), Hfold as (? & ? & ? & ?).
    repeat split; congruence.
Qed.

(** A clipped event leaves the collection and the span set as they are. *)
Lemma eventStep_clipped (el : gmap string loaderFunc)
    (st : Collection * option threadSpanSet) (ev : Event) :
  ev_Clipped ev = true -> eventStep el st ev = Ok st.
Proof. intros Hclipped. destruct st as [c ts]. unfold eventStep. rewrite Hclipped. reflexivity. Qed.

Lemma eventFold_unclipped (el : gmap string loaderFunc) (evs : list Event) :
  forall st : Collection * option threadSpanSet,
    eventFold el evs st = eventFold el (unclipped evs) st.
Proof.
  unfold unclipped. induction evs as [|ev evs IH]; intros st; cbn [eventFold List.filter].
  - reflexivity.
  - destruct (ev_Clipped ev) eqn:Hclipped; cbn [negb eventFold].
    + rewrite eventStep_clipped by assumption. cbn [mbind result_bind]. apply IH.
    + destruct (eventStep el st ev); cbn [mbind result_bind]; [apply IH | reflexivity].
Qed.

Lemma set_stringTable_same (c : Collection) : set_stringTable (c_stringTable c) c = c.
Proof. destruct c. reflexivity. Qed.

(** Passed-over events change the string bank at most. *)
Lemma eventFold_skipped (el : gmap string loaderFunc) (evs : list Event) :
  Forall (skipped el) evs ->
  forall c ts, exists bank, eventFold el evs (c, ts) = Ok (set_stringTable bank c, ts).
Proof.
  induction 1 as [|ev evs Hev _ IH]; intros c ts; cbn [eventFold].
  - exists (c_stringTable c). rewrite set_stringTable_same. reflexivity.
  - destruct Hev as [Hclipped | Hnone].
    + rewrite eventStep_clipped by assumption. cbn [mbind result_bind]. apply IH.
    + unfold eventStep. destruct (ev_Clipped ev).
      * cbn [mbind result_bind]. apply IH.
      * destruct (Hnone (c_stringTable c)) as [bank ->]. cbn [mbind result_bind].
        rewrite bool_decide_eq_true_2 by reflexivity. cbn [mbind result_bind].
        destruct (IH (set_stringTable bank c) ts) as [bank' ->].
        exists bank'. reflexivity.
Qed.


(** [buildSpansByPID] and [NewCollection], taken apart. *)
Lemma buildSpansByPID_inv (c : Collection) (es : EventSet) (el : gmap string loaderFunc)
    (c1 : Collection) :
  buildSpansByPID c es el = Ok c1 ->
  newEventLoader_err el = None /\ trace_NewCollection_err es = None /\
  exists c2 ts ts' spans,
    eventFold el (es_Event es)
      (set_TraceCollection (mkTrace (es_Event es)) (set_stringTable newStringBank c), None)
      = Ok (c2, Some ts) /\
    threadSpans ts (endTimestamp c2) = Ok (spans, ts') /\
    c1 = set_spans spans (ts_droppedEventCountsByID ts') (ts_syntheticTransitionCount ts') c2.
Proof.
  unfold buildSpansByPID, trace_NewCollection.
  destruct (newEventLoader_err el) eqn:Hloader; [discriminate|].
  destruct (trace_NewCollection_err es) eqn:Htrace; [discriminate|].
  cbn [mbind result_bind]. rewrite eventLoop_events.
  destruct (eventFold _ _ _) as [[c2 [ts|]]|] eqn:Hfold; cbn [mbind result_bind];
    try discriminate.
  destruct (threadSpans ts (endTimestamp c2)) as [[spans ts']|] eqn:Hspans;
    cbn [mbind result_bind]; [|discriminate].
  intros [= <-]. repeat split. exists c2, ts, ts', spans. auto.
Qed.

Lemma NewCollection_inv (es : EventSet) (opts : list Option) (c : Collection) :
  NewCollection es opts = Ok c ->
  exists o el c1,
    applyOptions opts (options emptyCollection) = Ok o /\
    resolveLoaders es o = Ok el /\
    buildSpansByPID (set_options (mkOptions (Some el) (normalizeTimestamps o)) emptyCollection)
      es el = Ok c1 /\
    buildSpansByCPU c1 = Ok c.
Proof.
  unfold NewCollection.
  destruct (applyOptions opts (options emptyCollection)) as [o|] eqn:Hopts; [|discriminate].
  cbn [mbind result_bind].
  destruct (resolveLoaders es o) as [el|] eqn:Hel; [|discriminate].
  cbn [mbind result_bind].
  destruct (buildSpansByPID _ es el) as [c1|] eqn:Hpid; [|discriminate].
  cbn [mbind result_bind]. intros Hcpu. exists o, el, c1.
  repeat split; assumption.
Qed.
End EventLoop.

(** ** Construction *)

Section Construction.
Context `{Externals}.

(** The collection handed to the event loop by [NewCollection]. *)
Lemma NewCollection_fold (es : EventSet) (opts : list Option) (c : Collection) :
  NewCollection es opts = Ok c ->
  exists o el c0 c2 ts ts' spans cs ps r s w,
    applyOptions opts (options emptyCollection) = Ok o /\
    resolveLoaders es o = Ok el /\
    options c0 = mkOptions (Some el) (normalizeTimestamps o) /\
    normalizationOffset c0 = Unknown /\
    TraceCollection c0 = mkTrace (es_Event es) /\
    cpus c0 = ∅ /\ pids c0 = ∅ /\
    eventFold el (es_Event es) (c0, None) = Ok (c2, Some ts) /\
    threadSpans ts (endTimestamp c2) = Ok (spans, ts') /\
    buildSpansByCPU
      (set_spans spans (ts_droppedEventCountsByID ts') (ts_syntheticTransitionCount ts') c2)
      = Ok c /\
    c = set_cpuIndexes r s w (set_cpus cs (set_pids ps
          (set_spans spans (ts_droppedEventCountsByID ts')
             (ts_syntheticTransitionCount ts') c2))).
Proof.
  intros Hrun. apply NewCollection_inv in Hrun.
  destruct Hrun as (o & el & c1 & Hopts & Hel & Hpid & Hcpu).
  apply buildSpansByPID_inv in Hpid.
  destruct Hpid as (_ & _ & c2 & ts & ts' & spans & Hfold & Hspans & ->).
  destruct (buildSpansByCPU_spec _ _ Hcpu) as ((cs & ps & r & s & w & Hc) & _).
  eexists o, el, _, c2, ts, ts', spans, cs, ps, r, s, w.
  repeat split; [exact Hopts | exact Hel | .. | exact Hfold | exact Hspans | exact Hcpu | exact Hc];
    reflexivity.
Qed.

(** The dropped events and the synthetic transitions of a constructed
    collection are those of the span set after [threadSpans]. *)
Lemma NewCollection_inference_counts (es : EventSet) (opts : list Option)
    (c : Collection) :
  NewCollection es opts = Ok c ->
  exists ts endTS spans ts',
    threadSpans ts endTS = Ok (spans, ts') /\
    droppedEventCountsByID c = ts_droppedEventCountsByID ts' /\
    SyntheticTransitionCount c = ts_syntheticTransitionCount ts'.
Proof.
  intros Hrun. apply NewCollection_fold in Hrun.
  destruct Hrun as (o & el & c0 & c2 & ts & ts' & spans & cs & ps & r & s & w &
    _ & _ & _ & _ & _ & _ & _ & _ & Hspans & _ & ->).
  exists ts, (endTimestamp c2), spans, ts'. repeat split. exact Hspans.
Qed.

(** [NewCollection] once the options, the loaders and the event set are
    accepted: the event loop, the finalization of the span set, and the
    CPU projection. *)
Lemma NewCollection_loop (es : EventSet) (opts : list Option) (o : collectionOptions)
    (el : gmap string loaderFunc) :
  accepted es opts o el ->
  NewCollection es opts =
    match eventFold el (es_Event es) (loopStart es o el, None) with
    | Err err => Err err
    | Ok (c2, None) => Err noUsableEvents
    | Ok (c2, Some ts) =>
        match threadSpans ts (endTimestamp c2) with
        | Err err => Err err
        | Ok (spans, ts') =>
            buildSpansByCPU
              (set_spans spans (ts_droppedEventCountsByID ts')
                 (ts_syntheticTransitionCount ts') c2)
        end
    end.
Proof.
  intros (Hopts & Hel & Hloader & Htrace).
  unfold NewCollection. rewrite Hopts. cbn [mbind result_bind].
  rewrite Hel. cbn [mbind result_bind].
  unfold buildSpansByPID, trace_NewCollection. rewrite Hloader, Htrace.
  cbn [mbind result_bind]. rewrite eventLoop_events. fold (loopStart es o el).
  destruct (eventFold el (es_Event es) (loopStart es o el, None)) as [[c2 [ts|]]|];
    cbn [mbind result_bind]; try reflexivity.
  destruct (threadSpans ts (endTimestamp c2)) as [[spans ts']|]; reflexivity.
Qed.

Lemma NewCollection_accepted (es : EventSet) (opts : list Option) (c : Collection) :
  NewCollection es opts = Ok c ->
  exists o el, accepted es opts o el.
Proof.
  intros Hrun. apply NewCollection_inv in Hrun.
  destruct Hrun as (o & el & c1 & Hopts & Hel & Hpid & _).
  apply buildSpansByPID_inv in Hpid. destruct Hpid as (Hloader & Htrace & _).
  exists o, el. repeat split; assumption.
Qed.

Lemma applyOptions_app (pre post : list Option) :
  forall o, applyOptions (pre ++ post) o = o' ← applyOptions pre o; applyOptions post o'.
Proof.
  induction pre as [|f pre IH]; intros o; cbn [app applyOptions]; [reflexivity|].
  destruct (f o) as [o'|]; cbn [mbind result_bind]; [apply IH | reflexivity].
Qed.


(** A turn of the loop for an event that makes transitions, taken apart. *)
Lemma eventStep_scheduling (el : gmap string loaderFunc) (c : Collection)
    (ts : option threadSpanSet) (ev : Event) (tr : threadTransition)
    (tts : list threadTransition) (bank : stringTable) :
  ev_Clipped ev = false ->
  threadTransitions el (c_stringTable c) ev = Ok (tr :: tts, bank) ->
  eventStep el (c, ts) ev =
    match addTransitions
            (spanSetFor (startNormalization ev (set_stringTable bank c)) ts)
            (ThreadTransitions
               (recordTransitions ev (tr :: tts)
                  (startNormalization ev (set_stringTable bank c)))) with
    | Ok ts' =>
        Ok (recordTransitions ev (tr :: tts)
              (startNormalization ev (set_stringTable bank c)), Some ts')
    | Err err => Err err
    end.
Proof.
  intros Hclipped Htts. unfold eventStep. rewrite Hclipped, Htts.
  cbn [mbind result_bind]. rewrite bool_decide_eq_false_2 by discriminate.
  unfold spanSetFor. destruct ts; reflexivity.
Qed.



Lemma startNormalization_offset (ev : Event) (c : Collection) :
  normalizationOffset (startNormalization ev c) =
    (if bool_decide (normalizationOffset c = UnknownTimestamp)
     then (if normalizeTimestamps (options c) then ev_Timestamp ev else 0)
     else normalizationOffset c) /\
  startTimestamp (startNormalization ev c) =
    (if bool_decide (normalizationOffset c = UnknownTimestamp)
     then sub64 (ev_Timestamp ev)
            (if normalizeTimestamps (options c) then ev_Timestamp ev else 0)
     else startTimestamp c).
Proof. unfold startNormalization. destruct (bool_decide _); split; reflexivity. Qed.

(** Once the offset is set, no later event changes it or the start. *)
Lemma eventFold_offset_kept (el : gmap string loaderFunc) (evs : list Event) :
  forall c ts c' ts',
    normalizationOffset c <> UnknownTimestamp ->
    eventFold el evs (c, ts) = Ok (c', ts') ->
    normalizationOffset c' = normalizationOffset c /\
    startTimestamp c' = startTimestamp c.
Proof.
  induction evs as [|ev evs IH]; intros c ts c' ts' Hset Hfold; cbn [eventFold] in Hfold.
  - injection Hfold as <- <-. split; reflexivity.
  - destruct (eventStep el (c, ts) ev) as [[c1 ts1]|] eqn:Hstep; [|discriminate].
    cbn [mbind result_bind] in Hfold. apply eventStep_cases in Hstep.
    assert (Hkept : normalizationOffset c1 = normalizationOffset c /\
                    startTimestamp c1 = startTimestamp c).
    { destruct Hstep as [(_ & -> & _) | [(_ & bank & _ & -> & _) | (_ & tr & tts & bank & ts2 & _ & -> & _)]];
        [split; reflexivity | split; reflexivity |].
      cbn. destruct (startNormalization_offset ev (set_stringTable bank c)) as [-> ->].
      cbn. rewrite bool_decide_eq_false_2 by assumption. split; reflexivity. }
    destruct Hkept as [Hoff Hstart].
    destruct (IH c1 ts1 c' ts') as [-> ->]; [congruence | assumption | split; assumption].
Qed.




(** A constructed collection, taken apart at the event loop. *)
Lemma NewCollection_run (es : EventSet) (opts : list Option) (c : Collection) :
  NewCollection es opts = Ok c ->
  exists o el c2 ts ts' spans,
    accepted es opts o el /\
    eventFold el (es_Event es) (loopStart es o el, None) = Ok (c2, Some ts) /\
    threadSpans ts (endTimestamp c2) = Ok (spans, ts') /\
    buildSpansByCPU
      (set_spans spans (ts_droppedEventCountsByID ts') (ts_syntheticTransitionCount ts') c2)
      = Ok c /\
    options c = mkOptions (Some el) (normalizeTimestamps o) /\
    options c2 = options c /\
    normalizationOffset c = normalizationOffset c2 /\
    startTimestamp c = startTimestamp c2 /\
    endTimestamp c = endTimestamp c2 /\
    droppedEventCountsByID c = ts_droppedEventCountsByID ts'.
Proof.
  intros Hrun. destruct (NewCollection_accepted _ _ _ Hrun) as (o & el & Haccepted).
  rewrite (NewCollection_loop es opts o el Haccepted) in Hrun.
  destruct (eventFold el (es_Event es) (loopStart es o el, None)) as [[c2 [ts|]]|] eqn:Hfold;
    try discriminate.
  destruct (threadSpans ts (endTimestamp c2)) as [[spans ts']|] eqn:Hspans; [|discriminate].
  exists o, el, c2, ts, ts', spans.
  destruct (buildSpansByCPU_spec _ _ Hrun) as ((cs & ps & r & s & w & Hc) & _).
  apply eventFold_frame in Hfold as Hframe. destruct Hframe as (Hoptions & _).
  split; [exact Haccepted|]. split; [exact Hfold|]. split; [exact Hspans|].
  split; [exact Hrun|].
  rewrite Hc. cbn. rewrite Hoptions. repeat split; reflexivity.
Qed.


(** C4, as amended: the turn of the loop for a clipped event returns the
    collection and the span set as they were, so the whole loop is the
    loop over the events that are not clipped; the events themselves all
    stay in the trace collection of the constructed collection, clipped or
    not; but [cpuLookupFunc] files a clipped event under no CPU, and
    [GetRawEvents] returns no clipped event. *)
Theorem clipped_events_bypassed (el : gmap string loaderFunc) (evs : list Event)
    (st : Collection * option threadSpanSet) :
  (forall ev st', ev_Clipped ev = true -> eventStep el st' ev = Ok st') /\
  eventLoop el (mkTrace evs) (seqZ 0 (EventCount (mkTrace evs))) st
    = eventFold el (unclipped evs) st /\
  (forall es opts c,
     es_Event es = evs ->
     NewCollection es opts = Ok c ->
     TraceCollection c = mkTrace evs /\
     forall (i : nat) ev,
       evs !! i = Some ev -> EventByIndex (TraceCollection c) (Z.of_nat i) = Ok ev) /\
  (forall ev, ev_Clipped ev = true -> cpuLookupFunc ev = Ok []) /\
  (forall c filters events,
     @GetRawEvents (withEventIndex _) c filters = Ok events ->
     Forall (fun ev' => ev_Clipped ev' = false) events).
Proof.
  split; [|split; [|split; [|split]]].
  - intros ev st' Hclipped. apply eventStep_clipped. assumption.
  - rewrite eventLoop_events. apply eventFold_unclipped.
  - intros es opts c Hevs Hrun. apply NewCollection_fold in Hrun.
    destruct Hrun as (o & el' & c0 & c2 & ts & ts' & spans & cs & ps & r & s & w &
      _ & _ & _ & _ & Htrace & _ & _ & Hfold & _ & _ & ->).
    apply eventFold_frame in Hfold. destruct Hfold as (_ & Htrace2 & _).
    cbn. rewrite Htrace2, Htrace, Hevs. split; [reflexivity|].
    intros i ev Hi. unfold EventByIndex. cbn [tc_events].
    destruct (Z.ltb_spec (Z.of_nat i) 0); [lia|].
    rewrite Nat2Z.id, Hi. reflexivity.
  - intros ev Hclipped. unfold cpuLookupFunc. rewrite Hclipped. reflexivity.
  - intros c filters events Hraw. apply GetRawEvents_indexed in Hraw.
    apply Forall_impl with (1 := Hraw).
    intros ev' (ev & cs & _ & Hcs & Hf & ->). cbn [ev_Clipped ev_setTimestamp].
    destruct (ev_Clipped ev) eqn:Hclipped; [|reflexivity].
    unfold cpuLookupFunc in Hcs. rewrite Hclipped in Hcs. injection Hcs as <-.
    rewrite filteredIn_cpus in Hf. discriminate.
Qed.

(** The engine is fed the transitions of the events. *)
Lemma addTransitions_fed (tts : list threadTransition) :
  forall (ts ts' : threadSpanSet) (ids : gset Z),
    fed ts ids ->
    addTransitions ts tts = Ok ts' ->
    exists ids',
      fed ts' ids' /\
      forall eventID, eventID ∈ ids' ->
        eventID ∈ ids \/ exists tr, tr ∈ tts /\ tt_EventID tr = eventID.
Proof.
  induction tts as [|tr tts IH]; intros ts ts' ids Hfed Hadd; cbn [addTransitions] in Hadd.
  - injection Hadd as <-. exists ids. split; [exact Hfed | auto].
  - destruct (addTransition ts tr) as [ts1|] eqn:Htr; [|discriminate].
    cbn [mbind result_bind] in Hadd.
    destruct (IH ts1 ts' _ (fed_add ts ids tr ts1 Hfed Htr) Hadd) as (ids' & Hfed' & Hids').
    exists ids'. split; [exact Hfed'|].
    intros eventID Hin. destruct (Hids' eventID Hin) as [Hid | (t & Ht & Hid)].
    + apply elem_of_union in Hid. destruct Hid as [Hid | Hid]; [|left; exact Hid].
      apply elem_of_singleton in Hid. right. exists tr. split; [left | symmetry; exact Hid].
    + right. exists t. split; [right; exact Ht | exact Hid].
Qed.

Lemma normalizeTransition_EventID (offset : Z) (tts : list threadTransition)
    (tr : threadTransition) :
  tr ∈ normalizeTransition offset <$> tts ->
  exists tr0, tr0 ∈ tts /\ tt_EventID tr0 = tt_EventID tr.
Proof.
  intros Hin. apply list_elem_of_fmap in Hin. destruct Hin as (tr0 & -> & Hin).
  exists tr0. split; [exact Hin | reflexivity].
Qed.

(** Through the event loop, the span set has been fed transitions of
    unclipped events of the loop only. *)
Lemma eventFold_fed (el : gmap string loaderFunc) (P : Z -> Prop) (evs : list Event) :
  (forall ev tr tts bank bank',
     ev ∈ evs -> ev_Clipped ev = false ->
     threadTransitions el bank ev = Ok (tts, bank') ->
     tr ∈ tts -> P (tt_EventID tr)) ->
  forall c ts c' ts',
    (forall t, ts = Some t -> exists ids, fed t ids /\ forall eventID, eventID ∈ ids -> P eventID) ->
    eventFold el evs (c, ts) = Ok (c', ts') ->
    forall t, ts' = Some t ->
      exists ids, fed t ids /\ forall eventID, eventID ∈ ids -> P eventID.
Proof.
  induction evs as [|ev evs IH]; intros Hevs c ts c' ts' Hts Hfold; cbn [eventFold] in Hfold.
  - injection Hfold as <- <-. exact Hts.
  - assert (Hrest : forall ev0 tr tts bank bank',
              ev0 ∈ evs -> ev_Clipped ev0 = false ->
              threadTransitions el bank ev0 = Ok (tts, bank') ->
              tr ∈ tts -> P (tt_EventID tr)).
    { intros ev0 tr tts bank bank' Hin. apply Hevs. right. exact Hin. }
    destruct (ev_Clipped ev) eqn:Hclipped.
    { rewrite eventStep_clipped in Hfold by exact Hclipped.
      cbn [mbind result_bind] in Hfold. exact (IH Hrest _ _ _ _ Hts Hfold). }
    destruct (threadTransitions el (c_stringTable c) ev) as [[[|tr tts] bank]|] eqn:Htts.
    + unfold eventStep in Hfold. rewrite Hclipped, Htts in Hfold.
      cbn [mbind result_bind] in Hfold.
      rewrite bool_decide_eq_true_2 in Hfold by reflexivity.
      cbn [mbind result_bind] in Hfold. exact (IH Hrest _ _ _ _ Hts Hfold).
    + rewrite (eventStep_scheduling el c ts ev tr tts bank Hclipped Htts) in Hfold.
      destruct (addTransitions _ _) as [ts1|] eqn:Hadd; [|discriminate].
      cbn [mbind result_bind] in Hfold.
      refine (IH Hrest _ _ _ _ _ Hfold). intros t [= <-].
      assert (Hstart : exists ids,
                fed (spanSetFor (startNormalization ev (set_stringTable bank c)) ts) ids /\
                forall eventID, eventID ∈ ids -> P eventID).
      { destruct ts as [t0|]; cbn [spanSetFor].
        - apply Hts. reflexivity.
        - exists ∅. split; [apply fed_new|].
          intros eventID Hin. exfalso. exact (not_elem_of_empty (C:=gset Z) eventID Hin). }
      destruct Hstart as (ids & Hfed & Hids).
      destruct (addTransitions_fed _ _ _ _ Hfed Hadd) as (ids' & Hfed' & Hids').
      exists ids'. split; [exact Hfed'|].
      intros eventID Hin. destruct (Hids' eventID Hin) as [Hid | (t & Ht & <-)].
      * apply Hids. exact Hid.
      * cbn [recordTransitions ThreadTransitions set_ThreadTransitions] in Ht.
        apply normalizeTransition_EventID in Ht. destruct Ht as (tr0 & Hin0 & <-).
        apply (Hevs ev tr0 (tr :: tts) (c_stringTable c) bank);
          [left | exact Hclipped | exact Htts | exact Hin0].
    + unfold eventStep in Hfold. rewrite Hclipped, Htts in Hfold. discriminate.
Qed.

(** C8: [DroppedEventIDs] is in strictly ascending order, so without
    duplicates, and holds exactly the event IDs recorded in the map of
    dropped events, however the map is ranged over.  In a constructed
    collection that map is the one of the finalized span set; and when the
    engine counts as dropped only events it was given transitions of, and
    the loaders give their transitions the index of their event, every ID
    returned is the index of an event of the event set that is not clipped
    and made a transition. *)
Theorem DroppedEventIDs_sorted_keys (es : EventSet) (opts : list Option) (c : Collection) :
  (StronglySorted Z.lt (DroppedEventIDs c) /\
   NoDup (DroppedEventIDs c) /\
   (forall eventID : Z,
      eventID ∈ DroppedEventIDs c <-> is_Some (droppedEventCountsByID c !! eventID)) /\
   (forall keys : list Z,
      keys ≡ₚ fst <$> map_to_list (droppedEventCountsByID c) ->
      sortInts keys = DroppedEventIDs c)) /\
  (NewCollection es opts = Ok c ->
   (exists ts endTS spans ts',
      threadSpans ts endTS = Ok (spans, ts') /\
      forall eventID : Z,
        eventID ∈ DroppedEventIDs c <->
        is_Some (ts_droppedEventCountsByID ts' !! eventID)) /\
   (dropsFedEvents ->
    forall el,
      loaders (options c) = Some el ->
      stampsEventIndex el ->
      forall eventID : Z,
        eventID ∈ DroppedEventIDs c ->
        exists ev, observed el es ev /\ ev_Index ev = eventID)).
Proof.
  split; [apply DroppedEventIDs_keys|].
  intros Hrun. apply NewCollection_run in Hrun.
  destruct Hrun as (o & el & c2 & ts & ts' & spans & _ & Hfold & Hspans & _ &
    Ho & _ & _ & _ & _ & Hdropped).
  destruct (DroppedEventIDs_keys c) as (_ & _ & Hkeys & _).
  split.
  - exists ts, (endTimestamp c2), spans, ts'. split; [exact Hspans|].
    intros eventID. rewrite Hkeys, Hdropped. reflexivity.
  - intros Hengine el' Hel' Hstamps eventID Hin.
    assert (el' = el) as -> by (rewrite Ho in Hel'; cbn in Hel'; congruence).
    apply Hkeys in Hin. rewrite Hdropped in Hin.
    assert (Hfed : exists ids,
              fed ts ids /\
              forall eventID, eventID ∈ ids ->
                exists ev, observed el es ev /\ ev_Index ev = eventID).
    { refine (eventFold_fed el _ (es_Event es) _ _ None _ _ _ Hfold ts eq_refl).
      - intros ev tr tts bank bank' Hev Hclipped Htts Htr.
        exists ev. split.
        + split; [exact Hev|]. split; [exact Hclipped|].
          destruct tts as [|tr0 tts]; [inversion Htr|].
          exists bank, tr0, tts, bank'. exact Htts.
        + specialize (Hstamps ev bank tts bank' Htts).
          rewrite Forall_forall in Hstamps. symmetry. apply Hstamps. exact Htr.
      - intros t Ht. discriminate. }
    destruct Hfed as (ids & Hfed & Hids).
    apply Hids. eapply Hengine; [|exact Hin].
    eapply fed_finalized; [exact Hfed | exact Hspans].
Qed.

(** C7: in a constructed collection each of the three per-CPU indexes
    holds, under a CPU, exactly the spans of its state with that CPU among
    the projected spans, which are the spans of the per-PID map with a
    known CPU and a known PID; the per-PID map itself is the one the
    inference returned, whatever the CPUs and PIDs of its spans; and the
    cached CPUs and PIDs are exactly those of the projected spans. *)
Theorem NewCollection_cpu_projection (es : EventSet) (opts : list Option) (c : Collection) :
  NewCollection es opts = Ok c ->
  (forall cpu s,
     (s ∈ indexed (runningSpansByCPU c) cpu <->
      s ∈ projected c /\ span_state s = RunningState /\ span_cpu s = cpu) /\
     (s ∈ indexed (sleepingSpansByCPU c) cpu <->
      s ∈ projected c /\ span_state s = SleepingState /\ span_cpu s = cpu) /\
     (s ∈ indexed (waitingSpansByCPU c) cpu <->
      s ∈ projected c /\ span_state s = WaitingState /\ span_cpu s = cpu)) /\
  (forall s,
     s ∈ projected c <->
     s ∈ allSpans (spansByPID c) /\ span_cpu s <> UnknownCPU /\ span_pid s <> UnknownPID) /\
  (exists ts endTS ts', threadSpans ts endTS = Ok (spansByPID c, ts')) /\
  (forall cpu, cpu ∈ cpus c <-> exists s, s ∈ projected c /\ span_cpu s = cpu) /\
  (forall pid, pid ∈ pids c <-> exists s, s ∈ projected c /\ span_pid s = pid).
Proof.
  intros Hrun. apply NewCollection_fold in Hrun.
  destruct Hrun as (o & el & c0 & c2 & ts & ts' & spans & cs & ps & r & s & w &
    _ & _ & _ & _ & _ & Hcpus & Hpids & Hfold & Hspans & Hcpu & Hc).
  apply eventFold_frame in Hfold. destruct Hfold as (_ & _ & Hcpus2 & Hpids2).
  destruct (buildSpansByCPU_spec _ _ Hcpu) as (_ & Hcs & Hps & Hidx).
  assert (Hproj : projected c =
    projected (set_spans spans (ts_droppedEventCountsByID ts')
                 (ts_syntheticTransitionCount ts') c2))
    by (rewrite Hc; reflexivity).
  rewrite Hproj. split; [exact Hidx|]. split.
  - intros s0. rewrite <- Hproj, elem_of_projected. reflexivity.
  - split.
    + exists ts, (endTimestamp c2), ts'. rewrite Hspans, Hc. reflexivity.
    + split.
      * intros cpu. rewrite Hcs. cbn. rewrite Hcpus2, Hcpus. split.
        -- intros [Hin | Hex]; [|exact Hex].
           exfalso. exact (not_elem_of_empty (C:=gset Z) cpu Hin).
        -- intros Hex. right. exact Hex.
      * intros pid. rewrite Hps. cbn. rewrite Hpids2, Hpids. split.
        -- intros [Hin | Hex]; [|exact Hex].
           exfalso. exact (not_elem_of_empty (C:=gset Z) pid Hin).
        -- intros Hex. right. exact Hex.
Qed.
End Construction.

(** ** The collection on concrete event sets *)

(** Scenario S3 of the specification, on the plain implementation: with
    normalization on, the offset is the first switch's timestamp. *)
Example normalized_two_switches :
  let c := constructed twoSwitches [NormalizeTimestamps true] in
  @NewCollection Plain.externals twoSwitches [NormalizeTimestamps true] = Ok c /\
  (NormalizationOffset c, startTimestamp c, endTimestamp c) = (1000, 0, 1000) /\
  ExpandCPUs c [] = [0] /\ sortInts (elements (pids c)) = [100; 200].
Proof. intros; evaluate. Qed.





(** C4, at the event set whose first switch is clipped. *)
Lemma clipped_events_bypassed_witness :
  let c := constructed clippedThenSwitch [] in
  @NewCollection Plain.externals clippedThenSwitch [] = Ok c /\
  EventByIndex (TraceCollection c) 0 = Ok (schedSwitch 0 1000 1 100 0 200 true) /\
  NormalizationOffset c = 0 /\ startTimestamp c = 2000 /\
  cpuLookupFunc (schedSwitch 0 1000 1 100 0 200 true) = Ok [] /\
  rawIndices c = Ok [1] /\
  forall events,
    @GetRawEvents Plain.externals c [] = Ok events ->
    Forall (fun ev' => ev_Clipped ev' = false) events.
Proof.
  intros c.
  assert (Hrun : @NewCollection Plain.externals clippedThenSwitch [] = Ok c)
    by (vm_compute; reflexivity).
  split; [exact Hrun|].
  destruct (@clipped_events_bypassed Plain.externals Plain.defaultLoaders
              (es_Event clippedThenSwitch) (@emptyCollection Plain.externals, None))
    as (_ & _ & Hstays & Hlookup & Hraw).
  destruct (Hstays clippedThenSwitch [] c eq_refl Hrun) as [_ Hevent].
  split; [exact (Hevent 0%nat _ eq_refl)|].
  split; [vm_compute; reflexivity|]. split; [vm_compute; reflexivity|].
  split; [apply Hlookup; reflexivity|]. split; [vm_compute; reflexivity|].
  intros events. apply (Hraw c []).
Defined.

(** C4, as stated, fails: of three switches on CPU 0 the second one is
    clipped; it is in the trace collection, its time lies within the
    collection's interval, and [GetRawEvents] returns the first and the
    third switch only. *)
Lemma GetRawEvents_omits_clipped_event :
  let c := constructed clippedBetweenSwitches [] in
  @NewCollection Plain.externals clippedBetweenSwitches [] = Ok c /\
  EventByIndex (TraceCollection c) 1 = Ok (schedSwitch 1 1500 0 200 0 300 true) /\
  ev_Clipped (schedSwitch 1 1500 0 200 0 300 true) = true /\
  Interval c [] = (1000, 2000) /\
  ExpandCPUs c [] = [0] /\
  rawIndices c = Ok [0; 2] /\
  rawTimestamps c = Ok [1000; 2000].
Proof. intros; evaluate. Qed.

(** C6, at the two switches with normalization on. *)
Lemma GetRawEvents_normalized_witness :
  let c := constructed twoSwitches [NormalizeTimestamps true] in
  rawTimestamps c = Ok [0; 1000] /\
  exists events,
    @GetRawEvents Plain.externals c [] = Ok events /\
    Forall (fun ev' => exists ev, ev ∈ es_Event twoSwitches /\
                         ev_Timestamp ev' = sub64 (ev_Timestamp ev) 1000) events.
Proof.
  intros c. split; [vm_compute; reflexivity|].
  destruct (@GetRawEvents Plain.externals c []) as [events|err] eqn:Hraw.
  - exists events. split; [reflexivity|].
    destruct (@GetRawEvents_normalized Plain.externals _ _ _ Hraw) as (pc & _ & Hall).
    apply Forall2_Forall_r with (1 := Hall). apply Forall_forall.
    intros i _ ev' (ev & Hev & _ & Hts & _). exists ev. split; [|exact Hts].
    unfold EventByIndex in Hev. destruct (i <? 0); [discriminate|].
    destruct (tc_events (TraceCollection c) !! Z.to_nat i) as [ev0|] eqn:Hi; [|discriminate].
    injection Hev as <-. apply list_elem_of_lookup_2 in Hi. exact Hi.
  - exfalso.
    assert (Hok : is_Ok (@GetRawEvents Plain.externals c []) = true)
      by (vm_compute; reflexivity).
    rewrite Hraw in Hok. discriminate.
Defined.

(** C7, at the switch followed by a wake-up: the span PID 300 slept in has
    no known CPU; it is in the per-PID map and in no index. *)
Lemma NewCollection_cpu_projection_witness :
  let c := constructed switchThenWakeup [] in
  @NewCollection Plain.externals switchThenWakeup [] = Ok c /\
  spansByPID c !! 300 =
    Some [ mkSpan 300 (-1) SleepingState 0 (-1) 1000 2000;
           mkSpan 300 1 WaitingState 0 (-1) 2000 2000 ] /\
  (forall cpu, mkSpan 300 (-1) SleepingState 0 (-1) 1000 2000
                 ∉ indexed (sleepingSpansByCPU c) cpu) /\
  ExpandCPUs c [] = [0; 1] /\ sortInts (elements (pids c)) = [100; 200; 300].
Proof.
  intros c.
  assert (Hrun : @NewCollection Plain.externals switchThenWakeup [] = Ok c)
    by (vm_compute; reflexivity).
  split; [exact Hrun|].
  destruct (@NewCollection_cpu_projection Plain.externals _ _ _ Hrun) as (Hidx & Hproj & _).
  split; [evaluate|]. split; [|evaluate].
  intros cpu Hin. apply (proj1 (proj1 (proj2 (Hidx cpu _)))) in Hin.
  destruct Hin as (Hin & _). apply Hproj in Hin.
  destruct Hin as (_ & Hcpu & _). apply Hcpu. reflexivity.
Defined.

(** The plain implementation keeps to what the specification says of the
    engine and of the loaders: its engine counts as dropped only events it
    was given transitions of, and its loaders give their transitions the
    index of their event. *)
Lemma Plain_fed_transitions (ts : Plain.spanSet) (ids : gset Z) :
  @fed Plain.externals ts ids ->
  forall tr, tr ∈ Plain.ps_transitions ts -> tt_EventID tr ∈ ids.
Proof.
  induction 1 as [start o | ts ids tr ts' _ IH Hadd | ts ids endTS spans ts' _ IH Hspans];
    intros tr0 Hin.
  - inversion Hin.
  - cbn in Hadd. injection Hadd as <-. cbn [Plain.ps_transitions] in Hin.
    apply elem_of_app in Hin. destruct Hin as [Hin | Hin].
    + apply elem_of_union. right. apply IH. exact Hin.
    + apply list_elem_of_singleton in Hin. subst tr0.
      apply elem_of_union. left. apply elem_of_singleton. reflexivity.
  - cbn in Hspans. injection Hspans as _ <-. apply IH. exact Hin.
Qed.

Lemma Plain_step_dropped (start : Z) (trs : list threadTransition) :
  forall (st : gmap Z (list threadSpan) * gmap Z Z) (eventID : Z),
    is_Some ((foldl (Plain.step start) st trs).2 !! eventID) ->
    is_Some (st.2 !! eventID) \/ exists tr, tr ∈ trs /\ tt_EventID tr = eventID.
Proof.
  induction trs as [|tr trs IH]; intros st eventID Hsome; cbn [foldl] in Hsome.
  - left. exact Hsome.
  - destruct (IH _ _ Hsome) as [Hst | (tr0 & Hin & Hid)].
    + destruct st as [m dropped]. unfold Plain.step in Hst.
      destruct (m !! tt_PID tr) as [spans|]; [|left; exact Hst].
      destruct (Plain.contradicts spans tr); [|left; exact Hst].
      cbn [snd] in Hst. destruct (decide (tt_EventID tr = eventID)) as [Heq | Hne].
      * right. exists tr. split; [left | exact Heq].
      * rewrite lookup_insert_ne in Hst by exact Hne. left. exact Hst.
    + right. exists tr0. split; [right; exact Hin | exact Hid].
Qed.

Lemma Plain_dropsFedEvents : @dropsFedEvents Plain.externals.
Proof.
  intros ts ids Hfed eventID Hsome. cbn in Hsome. unfold Plain.droppedOf, Plain.inferred in Hsome.
  apply Plain_step_dropped in Hsome. destruct Hsome as [Hsome | (tr & Hin & <-)].
  - cbn in Hsome. rewrite lookup_empty in Hsome. destruct Hsome as [? Hsome]. discriminate.
  - eapply Plain_fed_transitions; eassumption.
Qed.

Lemma Plain_stampsEventIndex : stampsEventIndex Plain.defaultLoaders.
Proof.
  assert (Hswitch : forall ev bank tts bank',
            Plain.loadSchedSwitch ev bank = Ok (tts, bank') ->
            Forall (fun tr => tt_EventID tr = ev_Index ev) tts).
  { intros ev bank tts bank'. unfold Plain.loadSchedSwitch.
    destruct (Plain.numberField ev "prev_pid"); [|discriminate].
    destruct (Plain.numberField ev "prev_state"); [|discriminate].
    destruct (Plain.numberField ev "next_pid"); [|discriminate].
    cbn [mbind result_bind]. intros [= <- _].
    constructor; [reflexivity|]. constructor; [reflexivity | constructor]. }
  assert (Hwakeup : forall ev bank tts bank',
            Plain.loadSchedWakeup ev bank = Ok (tts, bank') ->
            Forall (fun tr => tt_EventID tr = ev_Index ev) tts).
  { intros ev bank tts bank'. unfold Plain.loadSchedWakeup.
    destruct (Plain.numberField ev "pid"); [|discriminate].
    destruct (Plain.numberField ev "target_cpu"); [|discriminate].
    cbn [mbind result_bind]. intros [= <- _].
    constructor; [reflexivity | constructor]. }
  intros ev bank tts bank'. unfold threadTransitions, Plain.defaultLoaders.
  destruct (decide (ev_Name ev = "sched_switch"%string)) as [-> | Hswitch'].
  { rewrite lookup_insert_eq. apply Hswitch. }
  rewrite lookup_insert_ne by congruence.
  destruct (decide (ev_Name ev = "sched_wakeup"%string)) as [-> | Hwakeup'].
  { rewrite lookup_insert_eq. apply Hwakeup. }
  rewrite lookup_insert_ne by congruence.
  destruct (decide (ev_Name ev = "sched_wakeup_new"%string)) as [-> | Hnew'].
  { rewrite lookup_singleton_eq. apply Hwakeup. }
  rewrite lookup_singleton_ne by congruence.
  intros [= <- _]. constructor.
Qed.

(** C8, at the two switches of which the second contradicts the CPU of both
    threads: its two transitions are dropped, and event 1 is the one event
    returned. *)
Lemma DroppedEventIDs_sorted_keys_witness :
  let c := constructed switchOnOtherCPU [] in
  @NewCollection Plain.externals switchOnOtherCPU [] = Ok c /\
  DroppedEventIDs c = [1] /\
  droppedEventCountsByID c !! 1 = Some 2 /\
  exists ev, observed Plain.defaultLoaders switchOnOtherCPU ev /\ ev_Index ev = 1.
Proof.
  intros c.
  assert (Hrun : @NewCollection Plain.externals switchOnOtherCPU [] = Ok c)
    by (vm_compute; reflexivity).
  assert (Hids : DroppedEventIDs c = [1]) by (vm_compute; reflexivity).
  split; [exact Hrun|]. split; [exact Hids|]. split; [vm_compute; reflexivity|].
  apply (proj2 (proj2 (@DroppedEventIDs_sorted_keys Plain.externals switchOnOtherCPU [] c)
                  Hrun) Plain_dropsFedEvents Plain.defaultLoaders).
  - vm_compute. reflexivity.
  - exact Plain_stampsEventIndex.
  - rewrite Hids. apply list_elem_of_here.
Defined.

(** C9, at a collection with one interned command. *)
Lemma LookupCommand_spec_witness :
  LookupCommand sampleCollection 5 = Ok "bash"%string /\
  LookupCommand sampleCollection 6 =
    Err (StatusErrorf Internal "failed to find command for id %d" [ArgInt 6]).
Proof.
  split.
  - apply (proj2 (proj2 (LookupCommand_spec sampleCollection)) 5);
      [discriminate | vm_compute; reflexivity].
  - apply (proj2 (proj2 (LookupCommand_spec sampleCollection)) 6);
      [discriminate | vm_compute; reflexivity].
Defined.

(** C10, at a collection that covers the CPUs 3 and 1. *)
Lemma ExpandCPUs_spec_witness :
  ExpandCPUs sampleCollection [3; 1; 3] = [3; 1; 3] /\
  ExpandCPUs sampleCollection [] = [1; 3].
Proof.
  split; [|vm_compute; reflexivity].
  apply (proj1 (ExpandCPUs_spec sampleCollection)). discriminate.
Defined.

(** * Further properties of the converter *)

Import ExtraRuns.

(** ** The listed paths *)

Lemma filterSlice_filter (slice : list string) (pred : string -> bool) :
  filterSlice slice pred = List.filter pred slice.
Proof. induction slice as [|s rest IH]; cbn; [reflexivity|]. rewrite IH. reflexivity. Qed.

(** No piece of a split holds the separator. *)
Lemma Split_no_separator (s : string) (sep : ascii) :
  Forall (fun piece => contains sep piece = false) (Split s sep) /\ Split s sep <> [].
Proof.
  induction s as [|c s [IH Hne]]; cbn [Split].
  - split; [repeat constructor | discriminate].
  - destruct (Ascii.eqb c sep) eqn:Hc.
    + split; [constructor; [reflexivity | exact IH] | discriminate].
    + destruct (Split s sep) as [|w ws]; [contradiction|].
      inversion IH as [|? ? Hw Hws]; subst.
      split; [|discriminate]. constructor; [|exact Hws].
      cbn [contains]. rewrite Hc, Hw. reflexivity.
Qed.

Lemma contains_bytes (c : ascii) (s : string) :
  contains c s = true <-> c ∈ list_ascii_of_string s.
Proof.
  induction s as [|d s IH]; cbn [contains list_ascii_of_string].
  - split; [discriminate | intros Hin; inversion Hin].
  - rewrite orb_true_iff, IH, elem_of_cons. split.
    + intros [Hd | Hs]; [left; symmetry; apply Ascii.eqb_eq; exact Hd | right; exact Hs].
    + intros [-> | Hs]; [left; apply Ascii.eqb_refl | right; exact Hs].
Qed.

(** Trimming takes bytes off the two ends and nothing else. *)
Lemma trimLeft_drop (n : nat) : forall bs, exists k, trimLeft n bs = drop k bs.
Proof.
  induction n as [|n IH]; intros bs; cbn [trimLeft].
  - exists 0%nat. reflexivity.
  - destruct (leadingSpace bs) as [|w] eqn:Hw; [exists 0%nat; reflexivity|].
    destruct (IH (drop (S w) bs)) as [k ->]. exists (S w + k)%nat. apply drop_drop.
Qed.

Lemma trimRight_take (n : nat) : forall bs, exists k, trimRight n bs = take k bs.
Proof.
  induction n as [|n IH]; intros bs; cbn [trimRight].
  - exists (length bs). symmetry. apply firstn_all.
  - destruct (trailingSpace bs) as [|w] eqn:Hw; [exists (length bs); symmetry; apply firstn_all|].
    destruct (IH (take (length bs - S w) bs)) as [k ->].
    exists (k `min` (length bs - S w))%nat. apply take_take.
Qed.

Lemma leadingSpace_spec (bs : list ascii) :
  leadingSpace bs <> 0%nat <->
  exists j, (1 <= j <= 3)%nat /\ isSpace (take j bs) = true.
Proof.
  unfold leadingSpace. split.
  - destruct (isSpace (take 1 bs)) eqn:H1; [intros _; exists 1%nat; split; [lia|exact H1]|].
    destruct (isSpace (take 2 bs)) eqn:H2; [intros _; exists 2%nat; split; [lia|exact H2]|].
    destruct (isSpace (take 3 bs)) eqn:H3; [intros _; exists 3%nat; split; [lia|exact H3]|].
    intros Hne. contradiction.
  - intros (j & Hj & Hsp).
    assert (j = 1 \/ j = 2 \/ j = 3)%nat as [-> | [-> | ->]] by lia; rewrite ?Hsp.
    + discriminate.
    + destruct (isSpace (take 1 bs)); discriminate.
    + destruct (isSpace (take 1 bs)); [discriminate|].
      destruct (isSpace (take 2 bs)); discriminate.
Qed.

Lemma trailingSpace_spec (bs : list ascii) :
  trailingSpace bs <> 0%nat <->
  exists j, (1 <= j <= 3)%nat /\ isSpace (drop (length bs - j) bs) = true.
Proof.
  unfold trailingSpace. split.
  - destruct (isSpace (drop (length bs - 1) bs)) eqn:H1;
      [intros _; exists 1%nat; split; [lia|exact H1]|].
    destruct (isSpace (drop (length bs - 2) bs)) eqn:H2;
      [intros _; exists 2%nat; split; [lia|exact H2]|].
    destruct (isSpace (drop (length bs - 3) bs)) eqn:H3;
      [intros _; exists 3%nat; split; [lia|exact H3]|].
    intros Hne. contradiction.
  - intros (j & Hj & Hsp).
    assert (j = 1 \/ j = 2 \/ j = 3)%nat as [-> | [-> | ->]] by lia; rewrite ?Hsp.
    + discriminate.
    + destruct (isSpace (drop (length bs - 1) bs)); discriminate.
    + destruct (isSpace (drop (length bs - 1) bs)); [discriminate|].
      destruct (isSpace (drop (length bs - 2) bs)); discriminate.
Qed.

(** With enough turns, what is left neither starts nor ends with white
    space. *)
Lemma trimLeft_done (n : nat) :
  forall bs, (length bs <= n)%nat -> leadingSpace (trimLeft n bs) = 0%nat.
Proof.
  induction n as [|n IH]; intros bs Hlen; cbn [trimLeft].
  - destruct bs; [reflexivity | cbn in Hlen; lia].
  - destruct (leadingSpace bs) as [|w] eqn:Hw; [exact Hw|].
    apply IH. rewrite length_drop.
    destruct bs; [vm_compute in Hw; discriminate | cbn [length] in *; lia].
Qed.

Lemma trimRight_done (n : nat) :
  forall bs, (length bs <= n)%nat -> trailingSpace (trimRight n bs) = 0%nat.
Proof.
  induction n as [|n IH]; intros bs Hlen; cbn [trimRight].
  - destruct bs; [reflexivity | cbn in Hlen; lia].
  - destruct (trailingSpace bs) as [|w] eqn:Hw; [exact Hw|].
    apply IH. rewrite length_take.
    destruct bs; [vm_compute in Hw; discriminate | cbn [length] in *; lia].
Qed.

Lemma trimLeft_fixed (n : nat) (bs : list ascii) :
  leadingSpace bs = 0%nat -> trimLeft n bs = bs.
Proof. intros Hbs. destruct n; cbn [trimLeft]; [reflexivity|]. rewrite Hbs. reflexivity. Qed.

Lemma trimRight_fixed (n : nat) (bs : list ascii) :
  trailingSpace bs = 0%nat -> trimRight n bs = bs.
Proof. intros Hbs. destruct n; cbn [trimRight]; [reflexivity|]. rewrite Hbs. reflexivity. Qed.

(** A string that does not start with white space has no prefix that
    does. *)
Lemma leadingSpace_take (k : nat) (bs : list ascii) :
  leadingSpace bs = 0%nat -> leadingSpace (take k bs) = 0%nat.
Proof.
  intros Hbs. destruct (leadingSpace (take k bs)) as [|w] eqn:Hw; [reflexivity|].
  exfalso. assert (Hne : leadingSpace (take k bs) <> 0%nat) by (rewrite Hw; discriminate).
  apply leadingSpace_spec in Hne. destruct Hne as (j & Hj & Hsp).
  rewrite take_take in Hsp.
  assert (Hbs' : leadingSpace bs <> 0%nat); [|contradiction].
  apply leadingSpace_spec. exists (j `min` k)%nat. split; [|exact Hsp].
  destruct (j `min` k)%nat as [|m] eqn:Hm; [rewrite take_0 in Hsp; discriminate|]. lia.
Qed.

Lemma TrimSpace_bytes (s : string) :
  list_ascii_of_string (TrimSpace s)
  = trimRight (String.length s) (trimLeft (String.length s) (list_ascii_of_string s)).
Proof.
  unfold TrimSpace. rewrite list_ascii_of_string_of_list_ascii.
  replace (length (list_ascii_of_string s)) with (String.length s); [reflexivity|].
  induction s as [|c s IH]; cbn; [reflexivity|]. rewrite IH. reflexivity.
Qed.

Lemma length_bytes (s : string) : length (list_ascii_of_string s) = String.length s.
Proof. induction s as [|c s IH]; cbn; [reflexivity|]. rewrite IH. reflexivity. Qed.

(** What [TrimSpace] returns neither starts nor ends with a white-space
    rune. *)
Lemma TrimSpace_trimmed (s : string) :
  leadingSpace (list_ascii_of_string (TrimSpace s)) = 0%nat /\
  trailingSpace (list_ascii_of_string (TrimSpace s)) = 0%nat.
Proof.
  rewrite TrimSpace_bytes. split.
  - destruct (trimRight_take (String.length s)
                (trimLeft (String.length s) (list_ascii_of_string s))) as [k ->].
    apply leadingSpace_take, trimLeft_done. rewrite length_bytes. lia.
  - apply trimRight_done.
    destruct (trimLeft_drop (String.length s) (list_ascii_of_string s)) as [k ->].
    rewrite length_drop, length_bytes. lia.
Qed.

Lemma TrimSpace_fixed (s : string) :
  leadingSpace (list_ascii_of_string s) = 0%nat ->
  trailingSpace (list_ascii_of_string s) = 0%nat ->
  TrimSpace s = s.
Proof.
  intros Hl Hr. unfold TrimSpace.
  rewrite trimLeft_fixed by exact Hl. rewrite trimRight_fixed by exact Hr.
  apply string_of_list_ascii_of_string.
Qed.

Lemma TrimSpace_idempotent (s : string) : TrimSpace (TrimSpace s) = TrimSpace s.
Proof. destruct (TrimSpace_trimmed s) as [Hl Hr]. apply TrimSpace_fixed; assumption. Qed.

Lemma TrimSpace_contains (c : ascii) (s : string) :
  contains c s = false -> contains c (TrimSpace s) = false.
Proof.
  intros Hs. destruct (contains c (TrimSpace s)) eqn:Ht; [|reflexivity].
  exfalso. apply contains_bytes in Ht. rewrite TrimSpace_bytes in Ht.
  destruct (trimRight_take (String.length s)
              (trimLeft (String.length s) (list_ascii_of_string s))) as [k Hk].
  rewrite Hk in Ht. apply elem_of_take in Ht. destruct Ht as (i & Hi & _).
  destruct (trimLeft_drop (String.length s) (list_ascii_of_string s)) as [j Hj].
  rewrite Hj, lookup_drop in Hi.
  assert (Hin : c ∈ list_ascii_of_string s) by (eapply list_elem_of_lookup_2; exact Hi).
  apply contains_bytes in Hin. congruence.
Qed.

(** X1: every path the converter takes from [--format_files] is non-empty,
    carries no white space (of Unicode's, in UTF-8) at either end and no
    comma. *)
Theorem filteredFormatFilePaths_clean (fl : Flags) (p : string) :
  In p (filteredFormatFilePaths fl) ->
  p <> EmptyString /\ TrimSpace p = p /\ contains "," p = false.
Proof.
  unfold filteredFormatFilePaths. rewrite filterSlice_filter.
  intros Hin. apply filter_In in Hin. destruct Hin as [Hin Hne].
  apply in_map_iff in Hin. destruct Hin as (piece & <- & Hpiece).
  split; [|split].
  - apply negb_true_iff, String.eqb_neq in Hne. exact Hne.
  - apply TrimSpace_idempotent.
  - destruct (Split_no_separator (formatFilePaths fl) ",") as [Hall _].
    rewrite Forall_forall in Hall. apply list_elem_of_In in Hpiece.
    specialize (Hall piece Hpiece).
    apply TrimSpace_contains. exact Hall.
Qed.

Lemma filteredFormatFilePaths_clean_witness :
  filteredFormatFilePaths paddedFlags = ["formats/header_page"; "formats/sched_switch"]%string /\
  Forall (fun p => p <> EmptyString /\ TrimSpace p = p /\ contains "," p = false)
    (filteredFormatFilePaths paddedFlags).
Proof.
  split; [vm_compute; reflexivity|].
  apply Forall_forall. intros p Hp.
  apply (filteredFormatFilePaths_clean paddedFlags). apply list_elem_of_In. exact Hp.
Defined.

(** ** The order of the checks *)

(** X2: with fewer than two listed paths, or without [--output_path], the
    converter exits with status 1 before it reads any file: the outcome is
    the same on every file system, and fewer than two paths are reported
    first. *)
Theorem main_formats_validates_first (fl : Flags) (fs fs' : FileSystem) :
  (length (filteredFormatFilePaths fl) < 2)%nat \/ outputPath fl = EmptyString ->
  main_formats fl fs = main_formats fl fs' /\
  main_formats fl fs =
    (if (length (filteredFormatFilePaths fl) <? 2)%nat
     then LogExit formatFilesRequired []
     else LogExit outputPathRequired []) /\
  exitStatus (main_formats fl fs) = Some 1.
Proof.
  intros Hbad. unfold main_formats.
  destruct (length (filteredFormatFilePaths fl) <? 2)%nat eqn:Hlen.
  - repeat split.
  - destruct Hbad as [Hlt | Hout]; [apply Nat.ltb_ge in Hlen; lia|].
    rewrite Hout. cbn [String.eqb]. repeat split.
Qed.

Lemma main_formats_validates_first_witness :
  main_formats headerOnlyFlags recording = main_formats headerOnlyFlags emptyFileSystem.
Proof.
  apply (main_formats_validates_first headerOnlyFlags recording emptyFileSystem).
  left. vm_compute. lia.
Defined.

(** ** The loop over the format files, when it does not come to its end *)

(** An exit of the loop is the read failure of a listed file. *)
Lemma readFormatFiles_LogExit (fs : FileSystem) (paths : list string) :
  forall i ff hc f a,
    readFormatFiles fs paths i ff hc = LogExit f a ->
    exists p err, In p paths /\ ReadFile fs p = Err err /\
                  f = readFailure /\ a = [ArgErr err].
Proof.
  induction paths as [|p rest IH]; intros i ff hc f a Hrun; cbn [readFormatFiles] in Hrun.
  - discriminate.
  - destruct (ReadFile fs p) as [buf|err] eqn:Hread.
    + destruct (HasSuffix p "header_page").
      * destruct (IH _ _ _ _ _ Hrun) as (q & e & Hq & Hrest).
        exists q, e. split; [right; exact Hq | exact Hrest].
      * destruct (i <? length ff)%nat; [|discriminate].
        destruct (IH _ _ _ _ _ Hrun) as (q & e & Hq & Hrest).
        exists q, e. split; [right; exact Hq | exact Hrest].
    + injection Hrun as <- <-. exists p, err.
      split; [left; reflexivity|]. repeat split. exact Hread.
Qed.

(** Without a header page among readable files, the loop runs off the end
    of [formatFiles]. *)
Lemma readFormatFiles_Panic (fs : FileSystem) (paths : list string) :
  forall i ff hc,
    Forall (readable fs) paths ->
    Forall (fun p => HasSuffix p "header_page" = false) paths ->
    (i <= length ff)%nat -> (length ff - i < length paths)%nat ->
    readFormatFiles fs paths i ff hc = Panic indexOutOfRange.
Proof.
  induction paths as [|p rest IH]; intros i ff hc Hread Hnone Hi Hfree;
    cbn [readFormatFiles length] in *.
  - lia.
  - inversion Hread as [|? ? Hp Hrest]; subst. inversion Hnone as [|? ? Hs Hnone']; subst.
    unfold readable in Hp. destruct (ReadFile fs p) as [buf|]; [|discriminate].
    rewrite Hs. destruct (i <? length ff)%nat eqn:Hlt.
    + apply Nat.ltb_lt in Hlt. apply IH; try assumption.
      * rewrite length_insert. lia.
      * rewrite length_insert. lia.
    + reflexivity.
Qed.

(** The first file that cannot be read ends the loop. *)
Lemma readFormatFiles_unreadable (fs : FileSystem) (pre : list string) :
  forall p post err i ff hc,
    Forall (readable fs) pre ->
    ReadFile fs p = Err err ->
    (i <= length ff)%nat -> (length pre <= length ff - i)%nat ->
    readFormatFiles fs (pre ++ p :: post) i ff hc = LogExit readFailure [ArgErr err].
Proof.
  induction pre as [|q pre IH]; intros p post err i ff hc Hread Herr Hi Hfree;
    cbn [app readFormatFiles length] in *.
  - rewrite Herr. reflexivity.
  - inversion Hread as [|? ? Hq Hrest]; subst.
    unfold readable in Hq. destruct (ReadFile fs q) as [buf|]; [|discriminate].
    destruct (HasSuffix q "header_page").
    + apply IH; try assumption. lia.
    + replace (i <? length ff)%nat with true by (symmetry; apply Nat.ltb_lt; lia).
      apply IH; try assumption; rewrite length_insert; lia.
Qed.

(** X3: when at least two paths are listed, [--output_path] is set and every
    listed file can be read, but no listed path ends in [header_page], the
    converter does not reach the check of line 80: it panics on line 75,
    with exit status 2.  The message of line 81 is given exactly when a
    header page is listed, every file can be read, and the last header page
    file is empty. *)
Theorem main_formats_missing_header (fl : Flags) (fs : FileSystem) :
  ((2 <= length (filteredFormatFilePaths fl))%nat ->
   outputPath fl <> EmptyString ->
   Forall (readable fs) (filteredFormatFilePaths fl) ->
   Forall (fun p => HasSuffix p "header_page" = false) (filteredFormatFilePaths fl) ->
   main_formats fl fs = Panic indexOutOfRange /\
   exitStatus (main_formats fl fs) = Some 2) /\
  (main_formats fl fs = LogExit headerPageRequired []
   <->
   (2 <= length (filteredFormatFilePaths fl))%nat /\
   outputPath fl <> EmptyString /\
   Forall (readable fs) (filteredFormatFilePaths fl) /\
   exists h, last (headerPaths (filteredFormatFilePaths fl)) = Some h /\
             ReadFile fs h = Ok EmptyString).
Proof.
  split.
  - intros Hlen Hout Hread Hnone. unfold main_formats.
    replace (length (filteredFormatFilePaths fl) <? 2)%nat with false
      by (symmetry; apply Nat.ltb_ge; exact Hlen).
    apply String.eqb_neq in Hout. rewrite Hout.
    rewrite readFormatFiles_Panic; try assumption.
    + split; reflexivity.
    + lia.
    + rewrite length_replicate. lia.
  - unfold main_formats.
    destruct (length (filteredFormatFilePaths fl) <? 2)%nat eqn:Hlen.
    { apply Nat.ltb_lt in Hlen. split; [|intros (H2 & _); lia].
      intros Heq. vm_compute in Heq. discriminate. }
    apply Nat.ltb_ge in Hlen.
    destruct (String.eqb (outputPath fl) "") eqn:Hout.
    { apply String.eqb_eq in Hout. split; [|intros (_ & Hne & _); contradiction].
      intros Heq. vm_compute in Heq. discriminate. }
    apply String.eqb_neq in Hout.
    destruct (readFormatFiles fs (filteredFormatFilePaths fl) 0
                (replicate (length (filteredFormatFilePaths fl) - 1) EmptyString)
                EmptyString) as [[ff hc]|f a|m] eqn:Hloop.
    + apply readFormatFiles_main in Hloop; [|lia].
      destruct Hloop as (HF & (h & Hlast & Hread) & Hff).
      destruct (String.eqb hc "") eqn:Hhc.
      * apply String.eqb_eq in Hhc. subst hc. split; [|reflexivity].
        intros _. repeat split; try assumption. exists h. split; assumption.
      * apply String.eqb_neq in Hhc. split; [discriminate|].
        intros (_ & _ & _ & h' & Hlast' & Hread').
        rewrite Hlast in Hlast'. injection Hlast' as <-.
        rewrite Hread in Hread'. injection Hread' as ->. contradiction.
    + split.
      * intros Heq. apply readFormatFiles_LogExit in Hloop.
        destruct Hloop as (p & e & _ & _ & _ & ->). discriminate.
      * intros (_ & _ & HF & h & Hlast & Hread).
        assert (Hdone : readFormatFiles fs (filteredFormatFilePaths fl) 0
                  (replicate (length (filteredFormatFilePaths fl) - 1) EmptyString)
                  EmptyString
                = Done ((contentOf fs <$> eventPaths (filteredFormatFilePaths fl))
                          ++ replicate (length (headerPaths (filteredFormatFilePaths fl)) - 1)
                               EmptyString, EmptyString)).
        { apply readFormatFiles_main; [lia|]. repeat split; try assumption.
          exists h. split; assumption. }
        rewrite Hloop in Hdone. discriminate.
    + split; [discriminate|].
      intros (_ & _ & HF & h & Hlast & Hread).
      assert (Hdone : readFormatFiles fs (filteredFormatFilePaths fl) 0
                (replicate (length (filteredFormatFilePaths fl) - 1) EmptyString)
                EmptyString
              = Done ((contentOf fs <$> eventPaths (filteredFormatFilePaths fl))
                        ++ replicate (length (headerPaths (filteredFormatFilePaths fl)) - 1)
                             EmptyString, EmptyString)).
      { apply readFormatFiles_main; [lia|]. repeat split; try assumption.
        exists h. split; assumption. }
      rewrite Hloop in Hdone. discriminate.
Qed.

Lemma main_formats_missing_header_witness :
  main_formats noHeaderFlags recording = Panic indexOutOfRange /\
  exitStatus (main_formats noHeaderFlags recording) = Some 2.
Proof.
  assert (Hpaths : filteredFormatFilePaths noHeaderFlags
                   = ["formats/sched_switch"; "formats/sched_switch"]%string)
    by (vm_compute; reflexivity).
  apply (proj1 (main_formats_missing_header noHeaderFlags recording)); rewrite ?Hpaths.
  - cbn. lia.
  - discriminate.
  - constructor; [vm_compute; reflexivity|].
    constructor; [vm_compute; reflexivity | constructor].
  - constructor; [vm_compute; reflexivity|].
    constructor; [vm_compute; reflexivity | constructor].
Defined.

(** X4: when at least two paths are listed and [--output_path] is set, the
    first listed file that cannot be read ends the run with the read
    failure of that file (exit status 1), whatever follows it in the list
    and whether or not a header page is listed. *)
Theorem main_formats_first_unreadable (fl : Flags) (fs : FileSystem)
    (pre : list string) (p : string) (post : list string) (err : error) :
  filteredFormatFilePaths fl = pre ++ p :: post ->
  (2 <= length (filteredFormatFilePaths fl))%nat ->
  outputPath fl <> EmptyString ->
  Forall (readable fs) pre ->
  ReadFile fs p = Err err ->
  main_formats fl fs = LogExit readFailure [ArgErr err] /\
  exitStatus (main_formats fl fs) = Some 1.
Proof.
  intros Hpaths Hlen Hout Hread Herr. unfold main_formats.
  replace (length (filteredFormatFilePaths fl) <? 2)%nat with false
    by (symmetry; apply Nat.ltb_ge; exact Hlen).
  apply String.eqb_neq in Hout. rewrite Hout, Hpaths.
  rewrite (readFormatFiles_unreadable fs pre p post err); try assumption.
  - split; reflexivity.
  - lia.
  - rewrite length_replicate, length_app. cbn [length]. lia.
Qed.

Lemma main_formats_first_unreadable_witness :
  main_formats missingHeaderFlags recording
    = LogExit readFailure [ArgErr (noSuchFile "lost/header_page")].
Proof.
  apply (main_formats_first_unreadable missingHeaderFlags recording
           ["formats/sched_switch"%string] "lost/header_page"
           ["formats/header_page"%string]).
  - vm_compute. reflexivity.
  - vm_compute. lia.
  - discriminate.
  - constructor; [vm_compute; reflexivity | constructor].
  - vm_compute. reflexivity.
Defined.

(** ** The stats files *)







(** * Further properties of the collection *)

Import Durations.

(** X7: [cpuLookupFunc] fails exactly on an unclipped [sched_migrate_task]
    without [orig_cpu] and on an unclipped wake-up without [target_cpu];
    when it succeeds it returns no CPU exactly for a clipped event, two CPUs
    at most, and, except for a wake-up, the event's own CPU among them. *)
Theorem cpuLookupFunc_spec (ev : Event) :
  (is_Ok (cpuLookupFunc ev) = false
   <->
   ev_Clipped ev = false /\
   ((ev_Name ev = "sched_migrate_task"%string /\
     ev_NumberProperties ev !! "orig_cpu"%string = None) \/
    ((ev_Name ev = "sched_wakeup"%string \/ ev_Name ev = "sched_wakeup_new"%string) /\
     ev_NumberProperties ev !! "target_cpu"%string = None))) /\
  (forall cs,
     cpuLookupFunc ev = Ok cs ->
     (cs = [] <-> ev_Clipped ev = true) /\
     (length cs <= 2)%nat /\
     (ev_Clipped ev = false ->
      ev_Name ev <> "sched_wakeup"%string -> ev_Name ev <> "sched_wakeup_new"%string ->
      In (ev_CPU ev) cs)).
Proof.
  unfold cpuLookupFunc. destruct (ev_Clipped ev) eqn:Hclipped.
  { split.
    - split; [discriminate | intros [Hc _]; discriminate].
    - intros cs [= <-]. split; [split; reflexivity|].
      split; [cbn; lia | discriminate]. }
  destruct (String.eqb_spec (ev_Name ev) "sched_migrate_task") as [Hm | Hm].
  { destruct (ev_NumberProperties ev !! "orig_cpu"%string) as [orig|] eqn:Horig; split.
    - split; [discriminate|].
      intros [_ [[_ Hnone] | [[Hw | Hw] _]]]; [discriminate | |];
        rewrite Hm in Hw; discriminate.
    - intros cs [= <-]. split; [split; discriminate|]. split; [cbn; lia|].
      intros _ _ _. left. reflexivity.
    - split; [|reflexivity]. intros _. split; [reflexivity|]. left. split; [exact Hm | reflexivity].
    - intros cs Hcs. discriminate. }
  destruct (String.eqb_spec (ev_Name ev) "sched_wakeup") as [Hw | Hw].
  { cbn [orb].
    destruct (ev_NumberProperties ev !! "target_cpu"%string) as [target|] eqn:Htarget; split.
    - split; [discriminate|].
      intros [_ [[Hm' _] | [_ Hnone]]]; [contradiction | discriminate].
    - intros cs [= <-]. split; [split; discriminate|]. split; [cbn; lia|].
      intros _ Hw' _. contradiction.
    - split; [|reflexivity]. intros _. split; [reflexivity|].
      right. split; [left; exact Hw | reflexivity].
    - intros cs Hcs. discriminate. }
  destruct (String.eqb_spec (ev_Name ev) "sched_wakeup_new") as [Hn | Hn].
  { cbn [orb].
    destruct (ev_NumberProperties ev !! "target_cpu"%string) as [target|] eqn:Htarget; split.
    - split; [discriminate|].
      intros [_ [[Hm' _] | [_ Hnone]]]; [contradiction | discriminate].
    - intros cs [= <-]. split; [split; discriminate|]. split; [cbn; lia|].
      intros _ _ Hn'. contradiction.
    - split; [|reflexivity]. intros _. split; [reflexivity|].
      right. split; [right; exact Hn | reflexivity].
    - intros cs Hcs. discriminate. }
  cbn [orb]. split.
  - split; [discriminate|].
    intros [_ [[Hm' _] | [[Hw' | Hn'] _]]]; contradiction.
  - intros cs [= <-]. split; [split; discriminate|]. split; [cbn; lia|].
    intros _ _ _. left. reflexivity.
Qed.

Lemma cpuLookupFunc_spec_witness :
  is_Ok (cpuLookupFunc wakeupWithoutTarget) = false /\
  cpuLookupFunc migration = Ok [2; 0] /\
  cpuLookupFunc clippedMigration = Ok [].
Proof.
  split; [|split; vm_compute; reflexivity].
  apply (proj1 (cpuLookupFunc_spec wakeupWithoutTarget)).
  split; [reflexivity|]. right. split; [left; reflexivity | vm_compute; reflexivity].
Defined.

(** X8: a timestamp and a duration are the same [int64] count of
    nanoseconds: converting one into the other and back loses nothing. *)
Theorem duration_round_trip (c : Collection) (ns : Z) :
  int64 ns ->
  TimestampFromDuration c (DurationFromTimestamp c ns) = ns /\
  DurationFromTimestamp c (TimestampFromDuration c ns) = ns /\
  DurationFromSchedDuration c ns = ns.
Proof.
  intros Hns.
  unfold TimestampFromDuration, DurationFromTimestamp, DurationFromSchedDuration,
    Nanoseconds, mul64, Nanosecond.
  rewrite Z.mul_1_r, wrap64_int64 by exact Hns. repeat split.
Qed.

Lemma duration_round_trip_witness :
  TimestampFromDuration sampleCollection (DurationFromTimestamp sampleCollection 5000000000)
    = 5000000000.
Proof.
  apply (duration_round_trip sampleCollection 5000000000).
  unfold int64. lia.
Defined.

(** X12: expanding twice is expanding once, and the expansion is empty
    exactly when the slice is empty and the collection covers no CPU. *)
Theorem ExpandCPUs_idempotent (c : Collection) (cpus : list Z) :
  ExpandCPUs c (ExpandCPUs c cpus) = ExpandCPUs c cpus /\
  (ExpandCPUs c cpus = [] <-> cpus = [] /\ CPUs c [] = ∅).
Proof.
  assert (Hnil : ExpandCPUs c [] = sortInts (elements (Sched.cpus c))) by reflexivity.
  assert (Hcons : forall x l, ExpandCPUs c (x :: l) = x :: l) by reflexivity.
  assert (Hempty : sortInts (elements (Sched.cpus c)) = [] <-> Sched.cpus c = ∅).
  { unfold sortInts. split.
    - intros Hs. pose proof (merge_sort_Permutation Z.le (elements (Sched.cpus c))) as Hp.
      rewrite Hs in Hp. apply Permutation_nil in Hp.
      apply elements_empty_inv in Hp. apply leibniz_equiv. exact Hp.
    - intros ->. rewrite elements_empty. reflexivity. }
  change (CPUs c []) with (Sched.cpus c).
  destruct cpus as [|cpu rest].
  - rewrite Hnil. split; [|rewrite Hempty; tauto].
    destruct (sortInts (elements (Sched.cpus c))) as [|x l] eqn:Hsorted.
    + exact Hnil.
    + apply Hcons.
  - rewrite !Hcons. split; [reflexivity|].
    split; [discriminate | intros [Hn _]; discriminate].
Qed.

Section ConstructionOrder.
Context `{Externals}.

(** X10: the error of the first option that fails is the error of
    [NewCollection], whatever the event set and the options after it. *)
Theorem NewCollection_option_error (es : EventSet) (pre : list Option) (f : Option)
    (post : list Option) (o : collectionOptions) (err : error) :
  applyOptions pre (options emptyCollection) = Ok o ->
  f o = Err err ->
  NewCollection es (pre ++ f :: post) = Err err.
Proof.
  intros Hpre Hf. unfold NewCollection.
  rewrite applyOptions_app, Hpre. cbn [mbind result_bind applyOptions].
  rewrite Hf. reflexivity.
Qed.

(** The loop stops at the first turn that fails. *)
Lemma eventFold_step_error (el : gmap string loaderFunc) (pre : list Event) (ev : Event)
    (post : list Event) (st st1 : Collection * option threadSpanSet) (err : error) :
  eventFold el pre st = Ok st1 ->
  eventStep el st1 ev = Err err ->
  eventFold el (pre ++ ev :: post) st = Err err.
Proof.
  intros Hpre Hstep. rewrite eventFold_app, Hpre. cbn [mbind result_bind eventFold].
  rewrite Hstep. reflexivity.
Qed.

(** X11: when the options, the loaders and the trace collection are
    accepted and the events before it are processed, the error of the loader
    of an unclipped event is the error of [NewCollection], unchanged,
    whatever the events after it. *)
Theorem NewCollection_loader_error (es : EventSet) (opts : list Option)
    (o : collectionOptions) (el : gmap string loaderFunc)
    (pre : list Event) (ev : Event) (post : list Event) (err : error) :
  applyOptions opts (options emptyCollection) = Ok o ->
  resolveLoaders es o = Ok el ->
  newEventLoader_err el = None ->
  trace_NewCollection_err es = None ->
  es_Event es = pre ++ ev :: post ->
  is_Ok (eventFold el pre (loopStart es o el, None)) = true ->
  ev_Clipped ev = false ->
  (forall bank, threadTransitions el bank ev = Err err) ->
  NewCollection es opts = Err err.
Proof.
  intros Hopts Hel Hloader Htrace Hevs Hpre Hclipped Hload.
  unfold NewCollection. rewrite Hopts. cbn [mbind result_bind].
  rewrite Hel. cbn [mbind result_bind].
  unfold buildSpansByPID, trace_NewCollection. rewrite Hloader, Htrace.
  cbn [mbind result_bind]. rewrite eventLoop_events. fold (loopStart es o el).
  destruct (eventFold el pre (loopStart es o el, None)) as [[c1 ts1]|] eqn:Hfold;
    [|discriminate].
  rewrite Hevs.
  rewrite (eventFold_step_error el pre ev post _ (c1, ts1) err Hfold); [reflexivity|].
  unfold eventStep. rewrite Hclipped, Hload. reflexivity.
Qed.

(** X9: the end of a constructed collection is the normalized timestamp of
    the last event that is not clipped and makes transitions, and the
    recorded [ThreadTransitions] are the transitions of that event alone,
    with the offset taken off their timestamps. *)
Theorem NewCollection_last_scheduling_event (es : EventSet) (opts : list Option)
    (c : Collection) (el : gmap string loaderFunc)
    (pre : list Event) (ev : Event) (post : list Event) :
  NewCollection es opts = Ok c ->
  loaders (options c) = Some el ->
  es_Event es = pre ++ ev :: post ->
  scheduling el ev ->
  Forall (skipped el) post ->
  endTimestamp c = sub64 (ev_Timestamp ev) (NormalizationOffset c) /\
  snd (Interval c []) = sub64 (ev_Timestamp ev) (NormalizationOffset c) /\
  exists bank tts bank',
    threadTransitions el bank ev = Ok (tts, bank') /\
    ThreadTransitions c = normalizeTransition (NormalizationOffset c) <$> tts.
Proof.
  intros Hrun Hel Hevs [Hclipped Htts] Hpost. apply NewCollection_fold in Hrun.
  destruct Hrun as (o & el' & c0 & c2 & ts & ts' & spans & cs & ps & r & s & w &
    _ & _ & Ho & _ & _ & _ & _ & Hfold & _ & _ & ->).
  pose proof (eventFold_frame _ _ _ _ _ _ Hfold) as (Hoptions & _).
  assert (el' = el) as ->.
  { cbn in Hel. rewrite Hoptions, Ho in Hel. cbn in Hel. congruence. }
  rewrite Hevs, eventFold_app in Hfold.
  destruct (eventFold el pre (c0, None)) as [[c1 ts1]|]; [|discriminate].
  cbn [mbind result_bind eventFold] in Hfold.
  destruct (eventStep el (c1, ts1) ev) as [[c3 ts3]|] eqn:Hstep; [|discriminate].
  cbn [mbind result_bind] in Hfold.
  destruct (eventFold_skipped el post Hpost c3 ts3) as [bank Hskip].
  rewrite Hskip in Hfold. injection Hfold as <- Hts.
  apply eventStep_cases in Hstep.
  destruct Hstep as [(Hc & _) | [(_ & bank' & Hnone & _) | (_ & tr & tts & bank' & ts2 & Hsome & -> & _)]].
  - congruence.
  - destruct (Htts (c_stringTable c1)) as (tr & tts & b & Hsome).
    rewrite Hsome in Hnone. discriminate.
  - unfold NormalizationOffset, Interval, recordTransitions. cbn.
    split; [reflexivity|]. split; [reflexivity|].
    exists (c_stringTable c1), (tr :: tts), bank'. split; [exact Hsome | reflexivity].
Qed.

(** X13: without normalization, and with a sentinel other than 0, a
    constructed collection starts at the timestamp of the first event that
    is not clipped and makes transitions. *)
Theorem NewCollection_start_unnormalized (es : EventSet) (opts : list Option)
    (c : Collection) (el : gmap string loaderFunc)
    (pre : list Event) (ev : Event) (post : list Event) :
  NewCollection es opts = Ok c ->
  normalizeTimestamps (options c) = false ->
  UnknownTimestamp <> 0 ->
  loaders (options c) = Some el ->
  es_Event es = pre ++ ev :: post ->
  Forall (skipped el) pre ->
  scheduling el ev ->
  int64 (ev_Timestamp ev) ->
  startTimestamp c = ev_Timestamp ev /\ fst (Interval c []) = ev_Timestamp ev /\
  NormalizationOffset c = 0.
Proof.
  intros Hrun Hoff Hsentinel Hel Hevs Hpre [Hclipped Htts] Hint.
  apply NewCollection_fold in Hrun.
  destruct Hrun as (o & el' & c0 & c2 & ts & ts' & spans & cs & ps & r & s & w &
    _ & _ & Ho & Hoff0 & _ & _ & _ & Hfold & _ & _ & ->).
  pose proof (eventFold_frame _ _ _ _ _ _ Hfold) as (Hoptions & _).
  assert (el' = el) as ->.
  { cbn in Hel. rewrite Hoptions, Ho in Hel. cbn in Hel. congruence. }
  cbn in Hoff. rewrite Hoptions, Ho in Hoff. cbn in Hoff.
  rewrite Hevs, eventFold_app in Hfold.
  destruct (eventFold_skipped el pre Hpre c0 None) as [bank Hskip].
  rewrite Hskip in Hfold. cbn [mbind result_bind eventFold] in Hfold.
  destruct (eventStep el (set_stringTable bank c0, None) ev) as [[c1 ts1]|] eqn:Hstep;
    [|discriminate].
  cbn [mbind result_bind] in Hfold. apply eventStep_cases in Hstep.
  destruct Hstep as [(Hc & _) | [(_ & bank' & Hnone & _) | (_ & tr & tts & bank' & ts2 & _ & -> & _)]].
  - congruence.
  - destruct (Htts (c_stringTable (set_stringTable bank c0))) as (tr & tts & b & Hsome).
    rewrite Hsome in Hnone. discriminate.
  - assert (Hc1 : normalizationOffset
                    (recordTransitions ev (tr :: tts)
                       (startNormalization ev
                          (set_stringTable bank' (set_stringTable bank c0))))
                  = 0 /\
                  startTimestamp
                    (recordTransitions ev (tr :: tts)
                       (startNormalization ev
                          (set_stringTable bank' (set_stringTable bank c0))))
                  = ev_Timestamp ev).
    { cbn.
      destruct (startNormalization_offset ev
                  (set_stringTable bank' (set_stringTable bank c0))) as [-> ->].
      cbn. rewrite bool_decide_eq_true_2 by exact Hoff0.
      rewrite Ho. cbn. rewrite Hoff.
      split; [reflexivity|]. unfold sub64. rewrite Z.sub_0_r. apply wrap64_int64. exact Hint. }
    destruct Hc1 as [Hoff1 Hstart1].
    destruct (eventFold_offset_kept _ _ _ _ _ _
                ltac:(rewrite Hoff1; intros Heq; apply Hsentinel; symmetry; exact Heq) Hfold)
      as [Hoff2 Hstart2].
    unfold NormalizationOffset, Interval. cbn.
    rewrite Hoff2, Hstart2, Hoff1, Hstart1. repeat split.
Qed.
End ConstructionOrder.

(** ** The further properties on concrete event sets *)

Lemma NewCollection_option_error_witness :
  @NewCollection Plain.externals twoSwitches [NormalizeTimestamps true; rejecting]
    = Err (Errorf "option rejected" []).
Proof.
  apply (@NewCollection_option_error Plain.externals twoSwitches
           [NormalizeTimestamps true] rejecting [] (mkOptions None true)).
  - reflexivity.
  - reflexivity.
Defined.

Lemma NewCollection_loader_error_witness :
  @NewCollection Plain.externals switchThenFailure [UsingEventLoaders loadersWithFailing]
    = Err (Errorf "cannot load %s" [ArgStr "sched_process_exit"]).
Proof.
  apply (@NewCollection_loader_error Plain.externals switchThenFailure
           [UsingEventLoaders loadersWithFailing]
           (mkOptions (Some loadersWithFailing) false) loadersWithFailing
           [schedSwitch 0 1000 0 100 0 200 false]
           (mkEvent 1 "sched_process_exit" 0 2000 false ∅ ∅) []).
  - reflexivity.
  - reflexivity.
  - reflexivity.
  - reflexivity.
  - reflexivity.
  - vm_compute. reflexivity.
  - reflexivity.
  - intros bank. vm_compute. reflexivity.
Defined.

Lemma NewCollection_last_scheduling_event_witness :
  let c := constructed switchesThenIrq [NormalizeTimestamps true] in
  @NewCollection Plain.externals switchesThenIrq [NormalizeTimestamps true] = Ok c /\
  endTimestamp c = 1000 /\ NormalizationOffset c = 1000 /\
  List.map tt_Timestamp (ThreadTransitions c) = [1000; 1000] /\
  List.map tt_EventID (ThreadTransitions c) = [1; 1].
Proof.
  intros c.
  assert (Hrun : @NewCollection Plain.externals switchesThenIrq [NormalizeTimestamps true]
                 = Ok c) by (vm_compute; reflexivity).
  split; [exact Hrun|].
  destruct (@NewCollection_last_scheduling_event Plain.externals _ _ _
              Plain.defaultLoaders [schedSwitch 0 1000 0 100 0 200 false]
              (schedSwitch 1 2000 0 200 1 100 false) [irqEntry 2 2500 0] Hrun)
    as (Hend & _).
  - evaluate.
  - evaluate.
  - split; [evaluate|]. intros bank.
    exists (Plain.transition (schedSwitch 1 2000 0 200 1 100 false) 200 0 0
              RunningState SleepingState),
      [Plain.transition (schedSwitch 1 2000 0 200 1 100 false) 100 0 0
         WaitingState RunningState], bank.
    evaluate.
  - constructor; [|constructor]. right. intros bank. exists bank. evaluate.
  - split; [|evaluate]. rewrite Hend. evaluate.
Defined.

Lemma NewCollection_start_unnormalized_witness :
  let c := constructed irqThenSwitches [] in
  @NewCollection Plain.externals irqThenSwitches [] = Ok c /\
  startTimestamp c = 1000 /\ NormalizationOffset c = 0.
Proof.
  intros c.
  assert (Hrun : @NewCollection Plain.externals irqThenSwitches [] = Ok c)
    by (vm_compute; reflexivity).
  split; [exact Hrun|].
  destruct (@NewCollection_start_unnormalized Plain.externals _ _ _
              Plain.defaultLoaders [irqEntry 0 400 0]
              (schedSwitch 1 1000 0 100 0 200 false)
              [schedSwitch 2 2000 0 200 1 100 false] Hrun)
    as (Hstart & _ & Hoff).
  - evaluate.
  - evaluate.
  - evaluate.
  - evaluate.
  - constructor; [|constructor]. right. intros bank. exists bank. evaluate.
  - split; [evaluate|]. intros bank.
    exists (Plain.transition (schedSwitch 1 1000 0 100 0 200 false) 100 0 0
              RunningState WaitingState),
      [Plain.transition (schedSwitch 1 1000 0 100 0 200 false) 200 0 0
         WaitingState RunningState], bank.
    evaluate.
  - unfold int64. cbn. lia.
  - split; [exact Hstart | exact Hoff].
Defined.

(** X14: the CPU projection assigns the three per-CPU indexes and adds to
    the cached CPUs and PIDs; every other field of the collection, the
    per-PID spans among them, is left as it was. *)
Theorem buildSpansByCPU_frame `{Externals} (c c' : Collection) :
  buildSpansByCPU c = Ok c' ->
  spansByPID c' = spansByPID c /\
  c_stringTable c' = c_stringTable c /\
  options c' = options c /\
  NormalizationOffset c' = NormalizationOffset c /\
  Interval c' [] = Interval c [] /\
  TraceCollection c' = TraceCollection c /\
  ThreadTransitions c' = ThreadTransitions c /\
  DroppedEventIDs c' = DroppedEventIDs c /\
  SyntheticTransitionCount c' = SyntheticTransitionCount c /\
  cpus c ⊆ cpus c' /\ pids c ⊆ pids c'.
Proof.
  intros Hrun. destruct (buildSpansByCPU_spec _ _ Hrun)
    as ((cs & ps & r & s & w & ->) & Hcs & Hps & _).
  cbn in Hcs, Hps. repeat split; try reflexivity.
  - intros x Hx. cbn. apply Hcs. left. exact Hx.
  - intros x Hx. cbn. apply Hps. left. exact Hx.
Qed.

Lemma buildSpansByCPU_frame_witness :
  exists c',
    @buildSpansByCPU Plain.externals sampleCollection = Ok c' /\
    DroppedEventIDs c' = [3; 7] /\ ({[ 3; 1 ]} : gset Z) ⊆ cpus c'.
Proof.
  destruct (@buildSpansByCPU Plain.externals sampleCollection) as [c'|err] eqn:Hrun.
  - exists c'. split; [reflexivity|].
    destruct (@buildSpansByCPU_frame Plain.externals _ _ Hrun)
      as (_ & _ & _ & _ & _ & _ & _ & Hdropped & _ & Hcpus & _).
    split; [rewrite Hdropped; evaluate | exact Hcpus].
  - exfalso.
    assert (Hok : is_Ok (@buildSpansByCPU Plain.externals sampleCollection) = true)
      by evaluate.
    rewrite Hrun in Hok. discriminate.
Defined.
